(** * mookie: the WebSocket hub / client messaging layer

    A shallow embedding of [internal/websocket] (message.go, client.go,
    hub.go).  Go values are modelled as the code has them:

    - a Go [string] is a sequence of bytes: Rocq's [string];
    - a [[]byte] is [option (list byte)], [None] being the nil slice;
    - an [int] that is only compared (frame kinds, modes) is a [Z];
    - a [*Client] / [*Hub] is a nullable address into a heap ([gmap]);
    - a buffered channel is a record of its buffer, capacity and closed flag;
    - a goroutine body is run from a world state to a [result]: it returns,
      parks on a channel operation, or panics (which kills the process).

    The parts of the Go standard library and of gorilla/websocket the package
    calls are modelled next to the code that calls them. *)

From Stdlib Require Import NArith ZArith Lia List String Ascii Bool.
From Stdlib.Strings Require Import Byte.
From stdpp Require Import base gmap list strings.

Open Scope string_scope.
Open Scope list_scope.

(* ===================================================================== *)
(** * Bytes and strings *)
(* ===================================================================== *)

Definition u8 (b : byte) : N := Byte.to_N b.

(** Go's [byte(x)] conversion of an unsigned value: keep the low 8 bits. *)
Definition to_byte (n : N) : byte :=
  match Byte.of_N (n mod 256) with
  | Some b => b
  | None => x00
  end.

(* ===================================================================== *)
(** * unicode/utf8 as used by encoding/json

    [json.Marshal] coerces every Go string to valid UTF-8: it walks the
    string with [utf8.DecodeRuneInString], copies each well-formed encoding
    and writes U+FFFD for every byte that does not start one. *)
(* ===================================================================== *)

Module UTF8.

Definition codes (s : string) : list N :=
  map N_of_ascii (list_ascii_of_string s).

Definition of_codes (l : list N) : string :=
  string_of_list_ascii (map ascii_of_N l).

Definition between (lo hi b : N) : bool := ((lo <=? b) && (b <=? hi))%N.

(** continuation byte: [locb <= b <= hicb] *)
Definition cont : N -> bool := between 0x80 0xBF.

(** [acceptRanges] of the second byte, by first byte. *)
Definition accept (b0 b1 : N) : bool :=
  if (b0 =? 0xE0)%N then between 0xA0 0xBF b1
  else if (b0 =? 0xED)%N then between 0x80 0x9F b1
  else if (b0 =? 0xF0)%N then between 0x90 0xBF b1
  else if (b0 =? 0xF4)%N then between 0x80 0x8F b1
  else between 0x80 0xBF b1.

(** [DecodeRuneInString]: the width of the well-formed encoding the input
    starts with, or [None] where Go returns [(RuneError, 1)]. *)
Definition rune_width (l : list N) : option nat :=
  match l with
  | [] => None
  | b0 :: t =>
      if (b0 <? 0x80)%N then Some 1%nat
      else if between 0xC2 0xDF b0 then
        match t with
        | b1 :: _ => if accept b0 b1 then Some 2%nat else None
        | _ => None
        end
      else if between 0xE0 0xEF b0 then
        match t with
        | b1 :: b2 :: _ =>
            if accept b0 b1 && cont b2 then Some 3%nat else None
        | _ => None
        end
      else if between 0xF0 0xF4 b0 then
        match t with
        | b1 :: b2 :: b3 :: _ =>
            if accept b0 b1 && cont b2 && cont b3 then Some 4%nat else None
        | _ => None
        end
      else None
  end.

(** the UTF-8 encoding of U+FFFD *)
Definition RuneError : list N := [0xEF; 0xBF; 0xBD]%N.

(** The walk of [appendString]; [pending] counts the bytes of the current
    well-formed encoding still to be copied. *)
Fixpoint coerce_from (pending : nat) (l : list N) : list N :=
  match l with
  | [] => []
  | b :: t =>
      match pending with
      | S k => b :: coerce_from k t
      | O =>
          match rune_width l with
          | Some n => b :: coerce_from (Nat.pred n) t
          | None => RuneError ++ coerce_from 0 t
          end
      end
  end.


Definition ToValidUTF8 (s : string) : string :=
  of_codes (coerce_from 0 (codes s)).


End UTF8.

(* ===================================================================== *)
(** * encoding/base64, StdEncoding

    [encoding/json] writes a [[]byte] as a base64 string (standard alphabet,
    [=] padding) and reads it back with [StdEncoding.Decode]. *)
(* ===================================================================== *)

Module Base64.

Definition encodeStd : string :=
  "ABCDEFGHIJKLMNOPQRSTUVWXYZabcdefghijklmnopqrstuvwxyz0123456789+/".

Definition pad : ascii := "="%char.

Definition enc (v : N) : ascii :=
  nth (N.to_nat v) (list_ascii_of_string encodeStd) pad.

Fixpoint index_of (a : ascii) (l : list ascii) (i : N) : option N :=
  match l with
  | [] => None
  | x :: r => if Ascii.eqb x a then Some i else index_of a r (N.succ i)
  end.

(** [decodeMap]: the value of an alphabet character *)
Definition dec (a : ascii) : option N :=
  index_of a (list_ascii_of_string encodeStd) 0.

Definition sextet (val shift : N) : ascii :=
  enc (N.land (N.shiftr val shift) 0x3F).

(** [Encoding.Encode] *)
Fixpoint Encode (src : list byte) : list ascii :=
  match src with
  | [] => []
  | [b0] =>
      let val := N.shiftl (u8 b0) 16 in
      [sextet val 18; sextet val 12; pad; pad]
  | [b0; b1] =>
      let val := N.lor (N.shiftl (u8 b0) 16) (N.shiftl (u8 b1) 8) in
      [sextet val 18; sextet val 12; sextet val 6; pad]
  | b0 :: b1 :: b2 :: rest =>
      let val :=
        N.lor (N.lor (N.shiftl (u8 b0) 16) (N.shiftl (u8 b1) 8)) (u8 b2) in
      sextet val 18 :: sextet val 12 :: sextet val 6 :: sextet val 0
        :: Encode rest
  end.

Definition EncodeToString (src : list byte) : string :=
  string_of_list_ascii (Encode src).

Definition quantum (s0 s1 s2 s3 : N) : N :=
  N.lor (N.lor (N.lor (N.shiftl s0 18) (N.shiftl s1 12)) (N.shiftl s2 6)) s3.

Definition is_pad (a : ascii) : bool := Ascii.eqb a pad.

(** [decodeQuantum], on input without line breaks: full quanta, then
    possibly one padded quantum that must end the input. *)
Fixpoint decode_quanta (l : list ascii) : option (list byte) :=
  match l with
  | [] => Some []
  | c0 :: c1 :: c2 :: c3 :: rest =>
      match dec c0, dec c1 with
      | Some s0, Some s1 =>
          if is_pad c2 then
            match is_pad c3, rest with
            | true, [] =>
                Some [to_byte (N.shiftr (quantum s0 s1 0 0) 16)]
            | _, _ => None
            end
          else
            match dec c2 with
            | None => None
            | Some s2 =>
                if is_pad c3 then
                  match rest with
                  | [] =>
                      let val := quantum s0 s1 s2 0 in
                      Some [to_byte (N.shiftr val 16);
                            to_byte (N.shiftr val 8)]
                  | _ => None
                  end
                else
                  match dec c3 with
                  | None => None
                  | Some s3 =>
                      let val := quantum s0 s1 s2 s3 in
                      match decode_quanta rest with
                      | None => None
                      | Some out =>
                          Some (to_byte (N.shiftr val 16)
                                  :: to_byte (N.shiftr val 8)
                                  :: to_byte val :: out)
                      end
                  end
            end
      | _, _ => None
      end
  | _ => None
  end.

(** the decoder skips carriage returns and line feeds *)
Definition line_break (a : ascii) : bool :=
  Ascii.eqb a "010"%char || Ascii.eqb a "013"%char.

Definition DecodeString (s : string) : option (list byte) :=
  decode_quanta
    (List.filter (fun a => negb (line_break a)) (list_ascii_of_string s)).



End Base64.

(* ===================================================================== *)
(** * encoding/json values

    The text layer of [encoding/json] (quoting, escaping, parsing) is outside
    the repository; what the package fixes is the shape of the JSON value a
    [Message] is written as, through its struct tags.  A [Str] holds the text
    of a JSON string as UTF-8 bytes, a [Number] its literal, and an [Object]
    its members in order. *)
(* ===================================================================== *)

Module JSON.

#[warnings="-register-all"]
Inductive value : Type :=
| Null
| Bool (b : bool)
| Number (lit : string)
| Str (s : string)
| Array (elems : list value)
| Object (members : list (string * value)).


Definition digit (a : ascii) : option Z :=
  let n := Z.of_N (N_of_ascii a) in
  if (48 <=? n)%Z && (n <=? 57)%Z then Some (n - 48)%Z else None.

Fixpoint digits (acc : Z) (l : list ascii) : option Z :=
  match l with
  | [] => Some acc
  | a :: r =>
      match digit a with
      | Some d => digits (10 * acc + d)%Z r
      | None => None
      end
  end.

(** a number literal stored into a [uint8]: [strconv.ParseUint] and the
    overflow check *)
Definition to_uint8 (lit : string) : option byte :=
  match list_ascii_of_string lit with
  | [] => None
  | l =>
      match digits 0 l with
      | Some n => if (n <=? 255)%Z then Some (to_byte (Z.to_N n)) else None
      | None => None
      end
  end.

(** ASCII lower-casing: field names are matched without regard to case *)
Definition lower (a : ascii) : ascii :=
  let n := N_of_ascii a in
  if ((65 <=? n) && (n <=? 90))%N then ascii_of_N (n + 32) else a.

Definition fold_name (s : string) : string :=
  string_of_list_ascii (map lower (list_ascii_of_string s)).

End JSON.

(* ===================================================================== *)
(** * message.go *)
(* ===================================================================== *)

Definition MessageTypeError : string := "error".
Definition MessageModeText : Z := 1.
Definition MessageModeBinary : Z := 2.

(** [type Message struct]: [Mode] has tag [json:"-"], [Type] the key
    [type], [Payload] the key [payload], [ClientID] the key [cid] with
    [omitempty].  ([Type] is a reserved word here, hence [Type_].) *)
Record Message : Type := mkMessage {
  Mode : Z;
  Type_ : string;
  Payload : option (list byte);
  ClientID : string
}.

(** the zero value, [var msg Message] *)
Definition zeroMessage : Message :=
  {| Mode := 0; Type_ := ""; Payload := None; ClientID := "" |}.

Definition is_empty (s : string) : bool :=
  match s with EmptyString => true | _ => false end.

(** The value [json.Marshal(msg)] writes: the exported fields in declaration
    order, [Mode] skipped, [cid] left out when [ClientID] is empty; strings
    coerced to valid UTF-8, a nil [Payload] as [null] and any other as its
    base64 text. *)
Definition MarshalMessage (m : Message) : JSON.value :=
  JSON.Object
    (("type", JSON.Str (UTF8.ToValidUTF8 (Type_ m)))
     :: ("payload",
         match Payload m with
         | None => JSON.Null
         | Some b => JSON.Str (Base64.EncodeToString b)
         end)
     :: (if is_empty (ClientID m) then []
         else [("cid", JSON.Str (UTF8.ToValidUTF8 (ClientID m)))])).

(** a JSON value stored into a [string] field *)
Definition store_string (v : JSON.value) (old : string) : option string :=
  match v with
  | JSON.Str s => Some s
  | JSON.Null => Some old
  | _ => None
  end.

Fixpoint store_elems (l : list JSON.value) : option (list byte) :=
  match l with
  | [] => Some []
  | e :: r =>
      match
        match e with
        | JSON.Number lit => JSON.to_uint8 lit
        | JSON.Null => Some x00
        | _ => None
        end,
        store_elems r
      with
      | Some b, Some bs => Some (b :: bs)
      | _, _ => None
      end
  end.

(** a JSON value stored into a [[]byte] field; the outer [option] is the
    error *)
Definition store_bytes (v : JSON.value) : option (option (list byte)) :=
  match v with
  | JSON.Str s =>
      match Base64.DecodeString s with
      | Some b => Some (Some b)
      | None => None
      end
  | JSON.Null => Some None
  | JSON.Array l =>
      match store_elems l with
      | Some b => Some (Some b)
      | None => None
      end
  | _ => None
  end.

(** one object member stored into the struct: unknown keys are skipped *)
Definition store_member (kv : string * JSON.value) (m : Message)
  : option Message :=
  let (k, v) := kv in
  let name := JSON.fold_name k in
  if String.eqb name "type" then
    match store_string v (Type_ m) with
    | Some s =>
        Some {| Mode := Mode m; Type_ := s;
                Payload := Payload m; ClientID := ClientID m |}
    | None => None
    end
  else if String.eqb name "payload" then
    match store_bytes v with
    | Some p =>
        Some {| Mode := Mode m; Type_ := Type_ m;
                Payload := p; ClientID := ClientID m |}
    | None => None
    end
  else if String.eqb name "cid" then
    match store_string v (ClientID m) with
    | Some s =>
        Some {| Mode := Mode m; Type_ := Type_ m;
                Payload := Payload m; ClientID := s |}
    | None => None
    end
  else Some m.

Fixpoint store_members (l : list (string * JSON.value)) (m : Message)
  : option Message :=
  match l with
  | [] => Some m
  | kv :: r =>
      match store_member kv m with
      | Some m' => store_members r m'
      | None => None
      end
  end.

(** The value-level half of [json.Unmarshal(data, &msg)] into a zero
    [Message]: [None] is a non-nil error. *)
Definition UnmarshalMessage (v : JSON.value) : option Message :=
  match v with
  | JSON.Null => Some zeroMessage
  | JSON.Object members => store_members members zeroMessage
  | _ => None
  end.

Definition withMode (z : Z) (m : Message) : Message :=
  {| Mode := z; Type_ := Type_ m; Payload := Payload m;
     ClientID := ClientID m |}.

(** The text layer of [encoding/json]: how a value is written as bytes and
    which bytes parse as which value. *)
Class TextLayer : Type := {
  render : JSON.value -> list byte;
  parse : list byte -> option JSON.value
}.

(** [json.Marshal(msg)]: a [Message] has only string, byte-slice and
    skipped fields, so the call returns no error. *)
Definition json_Marshal `{TextLayer} (m : Message) : option (list byte) :=
  Some (render (MarshalMessage m)).

(** [json.Unmarshal(payload, &msg)] for a fresh [msg]; [None] is
    [err != nil]. *)
Definition json_Unmarshal `{TextLayer} (payload : list byte)
  : option Message :=
  match parse payload with
  | Some v => UnmarshalMessage v
  | None => None
  end.

(* ===================================================================== *)
(** * Go channels of [Message] *)
(* ===================================================================== *)

Record Chan : Type := mkChan {
  buf : list Message;   (* queued values, oldest first *)
  cap : nat;
  closed : bool
}.

(** [make(chan Message, n)] *)
Definition make_chan (n : nat) : Chan :=
  {| buf := []; cap := n; closed := false |}.

Definition set_buf (ch : Chan) (l : list Message) : Chan :=
  {| buf := l; cap := cap ch; closed := closed ch |}.

Definition enqueue (ch : Chan) (m : Message) : Chan :=
  set_buf ch (buf ch ++ [m]).

Inductive send_outcome : Type :=
| Sent (ch : Chan)
| SendParks       (* the buffer is full: the sender waits *)
| SendPanics.     (* send on closed channel *)

(** [ch <- m] *)
Definition chan_send (ch : Chan) (m : Message) : send_outcome :=
  if closed ch then SendPanics
  else if (length (buf ch) <? cap ch)%nat then Sent (enqueue ch m)
  else SendParks.

Inductive close_outcome : Type :=
| Closed (ch : Chan)
| ClosePanics.    (* close of closed channel *)

(** [close(ch)] *)
Definition chan_close (ch : Chan) : close_outcome :=
  if closed ch then ClosePanics
  else Closed {| buf := buf ch; cap := cap ch; closed := true |}.

(* ===================================================================== *)
(** * gorilla/websocket connections

    The connection is the environment of the package.  A [Conn] records
    every [WriteMessage] call with its outcome; [failing] scripts which of
    the coming writes fail, and a closed connection fails every write. *)
(* ===================================================================== *)

Definition TextMessage : Z := 1.
Definition BinaryMessage : Z := 2.
Definition CloseMessage : Z := 8.
Definition PingMessage : Z := 9.
Definition PongMessage : Z := 10.

Record Frame : Type := mkFrame { kind : Z; data : list byte }.

Record Conn : Type := mkConn {
  failing : list bool;          (* true: that write returns an error *)
  wire : list (Frame * bool);   (* calls so far, oldest first; true: written *)
  conn_closed : bool
}.

Definition error : Type := option string.

Definition log_write (cn : Conn) (f : Frame) (ok : bool) (rest : list bool)
  : Conn :=
  {| failing := rest; wire := wire cn ++ [(f, ok)];
     conn_closed := conn_closed cn |}.

(** [conn.WriteMessage(messageType, data)] *)
Definition conn_WriteMessage (cn : Conn) (messageType : Z) (d : list byte)
  : Conn * error :=
  let f := {| kind := messageType; data := d |} in
  if conn_closed cn then
    (log_write cn f false (failing cn), Some "use of closed connection")
  else
    match failing cn with
    | true :: rest => (log_write cn f false rest, Some "write failed")
    | false :: rest => (log_write cn f true rest, None)
    | [] => (log_write cn f true [], None)
    end.

(** [conn.Close()] *)
Definition conn_Close (cn : Conn) : Conn :=
  {| failing := failing cn; wire := wire cn; conn_closed := true |}.

(** what one [conn.ReadMessage()] call returns *)
Inductive ReadEvent : Type :=
| ReadFrame (messageType : Z) (payload : list byte)
| ReadError.

(* ===================================================================== *)
(** * The heap, and running a goroutine body *)
(* ===================================================================== *)

Definition addr : Type := nat.

(** a Go pointer: [None] is nil *)
Definition ptr : Type := option addr.

Record Client : Type := mkClient {
  ID : string;
  conn : option Conn;    (* *websocket.Conn, owned by the client *)
  send : Chan;
  receive : Chan;
  hub : ptr
}.

(** [type Hub struct]: the mutex is left out, every method body below being
    one critical section. *)
Record Hub : Type := mkHub { clients : list ptr }.

Inductive goroutine : Type :=
| GoReadPump (c : ptr)
| GoWritePump (c : ptr)
| GoSend (c : ptr) (m : Message).   (* func(c) { c.Writer() <- message } *)

Record World : Type := mkWorld {
  client_at : gmap addr Client;
  hub_at : gmap addr Hub;
  spawned : list goroutine      (* launched by [go], in launch order *)
}.

Inductive result (A : Type) : Type :=
| Ret (a : A) (w : World)     (* the body returned *)
| Parked (w : World)          (* the goroutine waits on a channel *)
| Panic (why : string).       (* an unrecovered panic: the process exits *)

Arguments Ret {A} a w.
Arguments Parked {A} w.
Arguments Panic {A} why.

Definition M (A : Type) : Type := World -> result A.

Definition ret {A : Type} (a : A) : M A := fun w => Ret a w.

Definition bind {A B : Type} (m : M A) (k : A -> M B) : M B :=
  fun w =>
    match m w with
    | Ret a w' => k a w'
    | Parked w' => Parked w'
    | Panic why => Panic why
    end.

Notation "x <- m ;; k" := (bind m (fun x => k))
  (at level 100, m at next level, right associativity).
Notation "m ;;; k" := (bind m (fun _ => k))
  (at level 100, right associativity).

Definition park {A : Type} : M A := fun w => Parked w.
Definition panic {A : Type} (why : string) : M A := fun _ => Panic why.

Definition nil_dereference : string :=
  "invalid memory address or nil pointer dereference".

(** [*c] *)
Definition load (c : ptr) : M Client :=
  fun w =>
    match c with
    | Some a =>
        match client_at w !! a with
        | Some cl => Ret cl w
        | None => Panic nil_dereference
        end
    | None => Panic nil_dereference
    end.

Definition put_client (a : addr) (cl : Client) (w : World) : World :=
  {| client_at := <[a := cl]> (client_at w);
     hub_at := hub_at w; spawned := spawned w |}.

Definition put_hub (a : addr) (hb : Hub) (w : World) : World :=
  {| client_at := client_at w;
     hub_at := <[a := hb]> (hub_at w); spawned := spawned w |}.

Definition store (c : ptr) (cl : Client) : M unit :=
  fun w =>
    match c with
    | Some a => Ret tt (put_client a cl w)
    | None => Panic nil_dereference
    end.

Definition load_hub (h : ptr) : M Hub :=
  fun w =>
    match h with
    | Some a =>
        match hub_at w !! a with
        | Some hb => Ret hb w
        | None => Panic nil_dereference
        end
    | None => Panic nil_dereference
    end.

Definition store_hub (h : ptr) (hb : Hub) : M unit :=
  fun w =>
    match h with
    | Some a => Ret tt (put_hub a hb w)
    | None => Panic nil_dereference
    end.

(** [go g] *)
Definition go (g : goroutine) : M unit :=
  fun w =>
    Ret tt {| client_at := client_at w; hub_at := hub_at w;
              spawned := spawned w ++ [g] |}.

Definition set_conn (cl : Client) (cn : option Conn) : Client :=
  {| ID := ID cl; conn := cn; send := send cl; receive := receive cl;
     hub := hub cl |}.

Definition set_send (cl : Client) (ch : Chan) : Client :=
  {| ID := ID cl; conn := conn cl; send := ch; receive := receive cl;
     hub := hub cl |}.

Definition set_receive (cl : Client) (ch : Chan) : Client :=
  {| ID := ID cl; conn := conn cl; send := send cl; receive := ch;
     hub := hub cl |}.

(* ===================================================================== *)
(** * client.go *)
(* ===================================================================== *)

(** [NewClient]: both queues are made with capacity 256. *)
Definition NewClient (id : string) (cn : option Conn) (h : ptr) : M ptr :=
  fun w =>
    let a := fresh (dom (client_at w)) in
    Ret (Some a)
        (put_client a {| ID := id; conn := cn; send := make_chan 256;
                         receive := make_chan 256; hub := h |} w).

(** [Start] *)
Definition Start (c : ptr) : M error :=
  cl <- load c ;;
  match conn cl with
  | None => ret (Some "connection not initialized")
  | Some _ => go (GoReadPump c) ;;; go (GoWritePump c) ;;; ret None
  end.

(** [close(c.send)] *)
Definition close_send (c : ptr) : M unit :=
  cl <- load c ;;
  match chan_close (send cl) with
  | Closed ch => store c (set_send cl ch)
  | ClosePanics => panic "close of closed channel"
  end.

(** [close(c.receive)] *)
Definition close_receive (c : ptr) : M unit :=
  cl <- load c ;;
  match chan_close (receive cl) with
  | Closed ch => store c (set_receive cl ch)
  | ClosePanics => panic "close of closed channel"
  end.

(** [(c *Client) Close] *)
Definition Client_Close (c : ptr) : M unit :=
  cl <- load c ;;
  match conn cl with
  | None => ret tt
  | Some cn =>
      store c (set_conn cl (Some (conn_Close cn))) ;;;
      close_send c ;;;
      close_receive c
  end.

(** [Reader]: the receive channel, as it stands *)
Definition Reader (c : ptr) : M Chan :=
  cl <- load c ;; ret (receive cl).

(** [Writer]: the send channel, as it stands *)
Definition Writer (c : ptr) : M Chan :=
  cl <- load c ;; ret (send cl).

(** [c.send <- m], also written [c.Writer() <- m] *)
Definition send_on_send (c : ptr) (m : Message) : M unit :=
  cl <- load c ;;
  match chan_send (send cl) m with
  | Sent ch => store c (set_send cl ch)
  | SendParks => park
  | SendPanics => panic "send on closed channel"
  end.

(** [c.receive <- m] *)
Definition send_on_receive (c : ptr) (m : Message) : M unit :=
  cl <- load c ;;
  match chan_send (receive cl) m with
  | Sent ch => store c (set_receive cl ch)
  | SendParks => park
  | SendPanics => panic "send on closed channel"
  end.

(** [c.conn.WriteMessage(messageType, data)] *)
Definition WriteMessage (c : ptr) (messageType : Z) (d : list byte)
  : M error :=
  cl <- load c ;;
  match conn cl with
  | None => panic nil_dereference
  | Some cn =>
      let (cn', err) := conn_WriteMessage cn messageType d in
      store c (set_conn cl (Some cn')) ;;; ret err
  end.

Section Pumps.

Context `{TextLayer}.

(** [handleDataMessage] *)
Definition handleDataMessage (c : ptr) (messageType : Z)
  (payload : list byte) : M error :=
  match json_Unmarshal payload with
  | None =>
      send_on_send c
        {| Mode := messageType; Type_ := MessageTypeError;
           Payload := Some (list_byte_of_string "Invalid message");
           ClientID := "" |} ;;;
      ret None
  | Some msg =>
      cl <- load c ;;
      send_on_receive c
        {| Mode := messageType; Type_ := Type_ msg;
           Payload := Payload msg; ClientID := ID cl |} ;;;
      ret None
  end.

(** [handleMessage] *)
Definition handleMessage (c : ptr) (messageType : Z) (payload : list byte)
  : M error :=
  if (messageType =? TextMessage)%Z || (messageType =? BinaryMessage)%Z then
    handleDataMessage c messageType payload
  else if (messageType =? CloseMessage)%Z then
    ret (Some "close message received")
  else if (messageType =? PingMessage)%Z then
    WriteMessage c PongMessage []
  else if (messageType =? PongMessage)%Z then
    ret None
  else
    ret None.

(** The [for] loop of [readPump]; [incoming] is what the successive
    [ReadMessage] calls return, and once it is used up, or the connection is
    closed, the read fails. *)
Fixpoint readLoop (c : ptr) (incoming : list ReadEvent) : M unit :=
  cl <- load c ;;
  match conn cl with
  | None => panic nil_dereference
  | Some cn =>
      if conn_closed cn then ret tt
      else
        match incoming with
        | [] => ret tt
        | ReadError :: _ => ret tt
        | ReadFrame messageType payload :: rest =>
            err <- handleMessage c messageType payload ;;
            match err with
            | Some _ => ret tt
            | None => readLoop c rest
            end
        end
  end.

(** one iteration of [writePump]'s loop body, for the dequeued [msg];
    [false]: the pump returns *)
Definition writeOne (c : ptr) (msg : Message) : M bool :=
  if (Mode msg =? MessageModeBinary)%Z then
    match json_Marshal msg with
    | None => ret false
    | Some d => _ <- WriteMessage c BinaryMessage d ;; ret true
    end
  else
    match json_Marshal msg with
    | None => ret false
    | Some d => _ <- WriteMessage c TextMessage d ;; ret true
    end.

(** [for msg := range c.send], run while no other goroutine enqueues:
    [queue] is the buffer of [c.send] on entry; each round takes its head
    off the channel; with the buffer used up the loop ends if the channel is
    closed and waits otherwise. *)
Fixpoint writeLoop (c : ptr) (queue : list Message) : M unit :=
  cl <- load c ;;
  match queue with
  | [] => if closed (send cl) then ret tt else park
  | msg :: rest =>
      store c (set_send cl (set_buf (send cl) rest)) ;;;
      continue <- writeOne c msg ;;
      if continue then writeLoop c rest else ret tt
  end.

(** [writePump] *)
Definition writePump (c : ptr) : M unit :=
  cl <- load c ;;
  writeLoop c (buf (send cl)).

End Pumps.

(* ===================================================================== *)
(** * hub.go *)
(* ===================================================================== *)

(** [NewHub] *)
Definition NewHub : M ptr :=
  fun w =>
    let a := fresh (dom (hub_at w)) in
    Ret (Some a) (put_hub a {| clients := [] |} w).

(** [AddClient] *)
Definition AddClient (h : ptr) (client : ptr) : M error :=
  match client with
  | None => ret (Some "client cannot be nil")
  | Some _ =>
      hb <- load_hub h ;;
      store_hub h {| clients := clients hb ++ [client] |} ;;;
      ret None
  end.

(** the index at which the [range] loop of [RemoveClient] breaks *)
Fixpoint first_index (client : ptr) (l : list ptr) (i : nat) : option nat :=
  match l with
  | [] => None
  | c :: r =>
      if bool_decide (c = client) then Some i
      else first_index client r (S i)
  end.

(** [append(s[:i], s[i+1:]...)] *)
Definition cut (i : nat) (s : list ptr) : list ptr :=
  take i s ++ drop (S i) s.

(** [RemoveClient] *)
Definition RemoveClient (h : ptr) (client : ptr) : M unit :=
  match client with
  | None => ret tt
  | Some _ =>
      hb <- load_hub h ;;
      match first_index client (clients hb) 0 with
      | Some i => store_hub h {| clients := cut i (clients hb) |}
      | None => ret tt
      end
  end.

(** the loop over the targets: one goroutine per client *)
Fixpoint dispatch (targets : list ptr) (message : Message) : M unit :=
  match targets with
  | [] => ret tt
  | client :: r => go (GoSend client message) ;;; dispatch r message
  end.

(** [Broadcast] *)
Definition Broadcast (h : ptr) (message : Message) : M unit :=
  hb <- load_hub h ;;
  dispatch (clients hb) message.

(** [SendToClients] *)
Definition SendToClients (h : ptr) (targets : list ptr) (message : Message)
  : M unit :=
  dispatch targets message.

Fixpoint close_each (l : list ptr) : M unit :=
  match l with
  | [] => ret tt
  | client :: r => Client_Close client ;;; close_each r
  end.

(** [(h *Hub) Close] *)
Definition Hub_Close (h : ptr) : M unit :=
  hb <- load_hub h ;;
  close_each (clients hb) ;;;
  store_hub h {| clients := [] |}.

(** [GetClients] *)
Definition GetClients (h : ptr) : M (list ptr) :=
  hb <- load_hub h ;;
  ret (clients hb).

(* ===================================================================== *)
(** * The goroutines *)
(* ===================================================================== *)

Section Goroutines.

Context `{TextLayer}.

(** [readPump]: the loop, then the deferred function. *)
Definition readPump (c : ptr) (incoming : list ReadEvent) : M unit :=
  readLoop c incoming ;;;
  cl <- load c ;;
  RemoveClient (hub cl) c ;;;
  Client_Close c.

(** Running a launched goroutine to the point where it returns, waits or
    panics; [incoming] is what the peer sends to a read pump. *)
Definition run (incoming : list ReadEvent) (g : goroutine) : M unit :=
  match g with
  | GoReadPump c => readPump c incoming
  | GoWritePump c => writePump c
  | GoSend c m => send_on_send c m
  end.

End Goroutines.

(* ===================================================================== *)
(** * What the specification expects of the write pump *)
(* ===================================================================== *)

(** the frame kind for a message: binary for binary mode, text otherwise *)
Definition frame_kind (m : Message) : Z :=
  if (Mode m =? MessageModeBinary)%Z then BinaryMessage else TextMessage.

(** the frame for a message: that kind, carrying the serialized envelope *)
Definition frame_of `{TextLayer} (m : Message) : Frame :=
  {| kind := frame_kind m; data := render (MarshalMessage m) |}.

(** the connection after [WriteMessage] was called with each frame in turn *)
Fixpoint write_all (cn : Conn) (fs : list Frame) : Conn :=
  match fs with
  | [] => cn
  | f :: r => write_all (fst (conn_WriteMessage cn (kind f) (data f))) r
  end.

(** the client once its send queue is used up and the frames are written *)
Definition drained `{TextLayer} (cl : Client) (cn : Conn)
  (queue : list Message) : Client :=
  set_conn (set_send cl (set_buf (send cl) []))
    (Some (write_all cn (map frame_of queue))).

(* ===================================================================== *)
(** * What the specification expects of the read pump *)
(* ===================================================================== *)

(** a data frame: text or binary *)
Definition data_kind (messageType : Z) : Prop :=
  messageType = TextMessage \/ messageType = BinaryMessage.

(** a frame of a kind the package does not know *)
Definition unknown_kind (messageType : Z) : Prop :=
  messageType <> TextMessage /\ messageType <> BinaryMessage
  /\ messageType <> CloseMessage /\ messageType <> PingMessage
  /\ messageType <> PongMessage.

(** the decoded message as application code is to see it: clientID is the
    receiving client's id, mode the kind of the frame *)
Definition stamped (cl : Client) (messageType : Z) (msg : Message) : Message :=
  {| Mode := messageType; Type_ := Type_ msg; Payload := Payload msg;
     ClientID := ID cl |}.

(** the malformed-message notice *)
Definition notice (messageType : Z) : Message :=
  {| Mode := messageType; Type_ := MessageTypeError;
     Payload := Some (list_byte_of_string "Invalid message");
     ClientID := "" |}.

(* ===================================================================== *)
(** * Sample values for the examples *)
(* ===================================================================== *)

Definition empty_world : World :=
  {| client_at := ∅; hub_at := ∅; spawned := [] |}.

Definition chat_message : Message :=
  {| Mode := MessageModeBinary; Type_ := "chat";
     Payload := Some (list_byte_of_string "Hello"); ClientID := "user123" |}.

Definition announcement : Message :=
  {| Mode := MessageModeText; Type_ := "announcement";
     Payload := Some (list_byte_of_string "Server starting");
     ClientID := "" |}.


Definition quoted (s : string) : string :=
  String (ascii_of_N 34) (s +:+ String (ascii_of_N 34) EmptyString).

Definition show_member (kv : string * JSON.value) : string :=
  quoted (fst kv) +:+ ":" +:+
  match snd kv with
  | JSON.Str s => quoted s
  | JSON.Null => "null"
  | _ => "?"
  end.

(** A small text layer: it writes flat objects of strings without escaping,
    and reads back the envelope of [chat_message], [null] and [{}]. *)
Definition demo_render (v : JSON.value) : list byte :=
  list_byte_of_string
    match v with
    | JSON.Object members =>
        "{" +:+ String.concat "," (map show_member members) +:+ "}"
    | JSON.Null => "null"
    | _ => "?"
    end.

Definition demo_parse (d : list byte) : option JSON.value :=
  let s := string_of_list_byte d in
  if String.eqb s (string_of_list_byte
                     (demo_render (MarshalMessage chat_message)))
  then Some (MarshalMessage chat_message)
  else if String.eqb s "null" then Some JSON.Null
  else if String.eqb s "{}" then Some (JSON.Object [])
  else None.

Definition demo_text : TextLayer :=
  {| render := demo_render; parse := demo_parse |}.

(** an open connection on which no write fails *)
Definition fresh_conn : Conn :=
  {| failing := []; wire := []; conn_closed := false |}.

(** the addresses [NewHub] and [NewClient] hand out in an empty world *)
Definition hub0 : addr := 0%nat.
Definition alice_at : addr := 0%nat.
Definition bob_at : addr := 1%nat.

Definition the_hub : ptr := Some hub0.
Definition alice : ptr := Some alice_at.
Definition bob : ptr := Some bob_at.

(** what the upgrade handler does for two connections: a client around each
    connection, registered with the hub *)
Definition connect_two : M unit :=
  h <- NewHub ;;
  a <- NewClient "alice" (Some fresh_conn) h ;;
  _ <- AddClient h a ;;
  b <- NewClient "bob" (Some fresh_conn) h ;;
  _ <- AddClient h b ;;
  ret tt.

(** a hub with the two members alice and bob *)
Definition member (id : string) : Client :=
  {| ID := id; conn := Some fresh_conn; send := make_chan 256;
     receive := make_chan 256; hub := the_hub |}.

Definition two_clients : World :=
  put_hub hub0 {| clients := [alice; bob] |}
    (put_client bob_at (member "bob")
       (put_client alice_at (member "alice") empty_world)).

(** alice registered twice *)
Definition alice_twice : World :=
  put_hub hub0 {| clients := [alice; bob; alice] |} two_clients.

(** alice with two messages queued, on a connection whose next write fails
    and whose later writes succeed *)
Definition flaky_conn : Conn :=
  {| failing := [true]; wire := []; conn_closed := false |}.

Definition alice_queued : Client :=
  {| ID := "alice"; conn := Some flaky_conn;
     send := {| buf := [chat_message; announcement]; cap := 256;
                closed := false |};
     receive := make_chan 256; hub := the_hub |}.

Definition two_queued : World := put_client alice_at alice_queued two_clients.

(** a payload that is not JSON *)
Definition garbage : list byte := list_byte_of_string "oops".

(** the envelope of [chat_message] as text *)
Definition chat_payload : list byte :=
  demo_render (MarshalMessage chat_message).

(* ===================================================================== *)
(** * Further notions used to state what the package does *)
(* ===================================================================== *)

(** the world after [go] launched the goroutines [gs] *)
Definition launched (gs : list goroutine) (w : World) : World :=
  {| client_at := client_at w; hub_at := hub_at w;
     spawned := spawned w ++ gs |}.

(** the client after [Close]: connection closed, both queues sealed with
    what they hold *)
Definition sealed (cl : Client) (cn : Conn) : Client :=
  {| ID := ID cl; conn := Some (conn_Close cn);
     send := {| buf := buf (send cl); cap := cap (send cl); closed := true |};
     receive := {| buf := buf (receive cl); cap := cap (receive cl);
                   closed := true |};
     hub := hub cl |}.

(** what [Close] makes of a client: nothing without a connection *)
Definition after_Close (cl : Client) : Client :=
  match conn cl with
  | None => cl
  | Some cn => sealed cl cn
  end.

(** a membership without the first entry for [client] *)
Definition without (client : ptr) (l : list ptr) : list ptr :=
  match first_index client l 0 with
  | Some i => cut i l
  | None => l
  end.

(** the senders [Broadcast] and [SendToClients] launch for the targets *)
Definition senders (targets : list ptr) (m : Message) : list goroutine :=
  map (fun c => GoSend c m) targets.

Section Turns.

Context `{TextLayer}.


End Turns.

(** the read fails, or the frame read is a close frame: the read loop ends *)
Definition read_ends (cn : Conn) (incoming : list ReadEvent) : Prop :=
  conn_closed cn = true
  \/ match incoming with
     | [] => True
     | ReadError :: _ => True
     | ReadFrame messageType _ :: _ => messageType = CloseMessage
     end.

(** a client [Close] can be called on: without a connection, or with both
    queues still open *)
Definition closable (cl : Client) : Prop :=
  match conn cl with
  | None => True
  | Some _ => closed (send cl) = false /\ closed (receive cl) = false
  end.

(* ===================================================================== *)
(** * What no operation of the package undoes *)
(* ===================================================================== *)

(** a connection at a later time: still there, still closed if it was, and
    with the writes recorded so far still on record *)
Definition conn_later (c c' : option Conn) : Prop :=
  match c, c' with
  | None, None => True
  | Some cn, Some cn' =>
      (conn_closed cn = true -> conn_closed cn' = true)
      /\ exists more, wire cn' = wire cn ++ more
  | _, _ => False
  end.

(** a queue at a later time: same capacity, still closed if it was, and
    within its capacity if it was *)
Definition chan_later (ch ch' : Chan) : Prop :=
  cap ch' = cap ch
  /\ (closed ch = true -> closed ch' = true)
  /\ ((length (buf ch) <= cap ch)%nat -> (length (buf ch') <= cap ch')%nat).

Definition client_later (cl cl' : Client) : Prop :=
  ID cl' = ID cl /\ hub cl' = hub cl
  /\ conn_later (conn cl) (conn cl')
  /\ chan_later (send cl) (send cl')
  /\ chan_later (receive cl) (receive cl').

(** a world at a later time: every client and hub is still allocated, every
    client is a later state of itself, and the goroutines launched so far
    are still on record *)
Definition later (w w' : World) : Prop :=
  (forall a cl, client_at w !! a = Some cl ->
     exists cl', client_at w' !! a = Some cl' /\ client_later cl cl')
  /\ (forall h hb, hub_at w !! h = Some hb ->
        exists hb', hub_at w' !! h = Some hb')
  /\ exists more, spawned w' = spawned w ++ more.

(** an operation that, as far as it gets without a panic, only leads to
    later worlds *)
Definition steadily {A : Type} (m : M A) : Prop :=
  forall w,
    match m w with
    | Ret _ w' => later w w'
    | Parked w' => later w w'
    | Panic _ => True
    end.

(* ===================================================================== *)
(** * internal/container *)
(* ===================================================================== *)

(** a registered service, [any], by the dynamic type the handlers assert;
    an upgrader is what its [Upgrade] does: it may write to the response and
    returns a connection or an error *)
Record ResponseWriter : Type := mkResponse {
  status : option Z;     (* the status line, once written *)
  body : string
}.

(** the request headers, by canonical key *)
Record Request : Type := mkRequest { Header : gmap string (list string) }.

Inductive any : Type :=
| AnyConfig
| AnyLogger                         (* *slog.Logger *)
| AnyDB
| AnyHub (h : ptr)                  (* *websocket.Hub *)
| AnyUpgrader                       (* *websocket.Upgrader *)
    (Upgrade : ResponseWriter -> Request -> ResponseWriter * (Conn + string)).

(** [type Container struct]: the mutex is left out *)
Record Container : Type := mkContainer { services : gmap string any }.

(** [New] *)
Definition Container_New : Container := {| services := ∅ |}.

(** [Register]: [c.services[name] = service] *)
Definition Register (name : string) (service : any) (c : Container)
  : Container :=
  {| services := <[name := service]> (services c) |}.

(** [Get] *)
Definition Get (name : string) (c : Container) : option any * error :=
  match services c !! name with
  | Some service => (Some service, None)
  | None => (None, Some ("service " +:+ name +:+ " not found"))
  end.

(** [MustGet]: panics with the error of [Get] *)
Definition MustGet (name : string) (c : Container) : M any :=
  match Get name c with
  | (Some service, None) => ret service
  | (_, Some err) => panic err
  | (None, None) => panic nil_dereference
  end.

(** the type assertions of the handlers; a failed one panics *)
Definition interface_conversion : string := "interface conversion".

Definition as_logger (s : any) : M unit :=
  match s with
  | AnyLogger => ret tt
  | _ => panic interface_conversion
  end.

Definition as_hub (s : any) : M ptr :=
  match s with
  | AnyHub h => ret h
  | _ => panic interface_conversion
  end.

Definition as_upgrader (s : any)
  : M (ResponseWriter -> Request -> ResponseWriter * (Conn + string)) :=
  match s with
  | AnyUpgrader up => ret up
  | _ => panic interface_conversion
  end.

(* ===================================================================== *)
(** * handlers/handlers.go: the two handlers that use the hub

    Of [net/http] the handlers use a request header, the status and body
    of the response, and the logger; the calls made to the logger are kept
    on record. *)
(* ===================================================================== *)

Record LogRecord : Type := mkLog {
  level : string;
  text : string;
  attrs : list (string * string)
}.

Record Exchange : Type := mkExchange {
  response : ResponseWriter;
  logged : list LogRecord          (* oldest first *)
}.

(** [r.Header.Get(key)], [key] in canonical form: the first value, or the
    empty string *)
Definition Header_Get (r : Request) (key : string) : string :=
  match Header r !! key with
  | Some (v :: _) => v
  | _ => ""
  end.

(** [w.WriteHeader(code)]: only the first call sets the status *)
Definition WriteHeader (code : Z) (rw : ResponseWriter) : ResponseWriter :=
  match status rw with
  | None => {| status := Some code; body := body rw |}
  | Some _ => rw
  end.

(** [http.Error(w, msg, code)]: the status, then the message and a line
    feed as body *)
Definition http_Error (msg : string) (code : Z) (rw : ResponseWriter)
  : ResponseWriter :=
  let rw' := WriteHeader code rw in
  {| status := status rw';
     body := body rw' +:+ msg +:+ String (ascii_of_N 10) EmptyString |}.

Definition StatusOK : Z := 200.
Definition StatusBadRequest : Z := 400.

Definition log (lv txt : string) (kv : list (string * string))
  (ex : Exchange) : Exchange :=
  {| response := response ex;
     logged := logged ex ++ [{| level := lv; text := txt; attrs := kv |}] |}.

Definition respond (f : ResponseWriter -> ResponseWriter) (ex : Exchange)
  : Exchange :=
  {| response := f (response ex); logged := logged ex |}.

(** [PostMessage(c)] applied to a request *)
Definition PostMessage (c : Container) (r : Request) (ex : Exchange)
  : M Exchange :=
  l <- MustGet "logger" c ;;
  _ <- as_logger l ;;
  s <- MustGet "hub" c ;;
  hub <- as_hub s ;;
  let message := Header_Get r "Message" in
  let ex := log "DEBUG" "received message" [("message", message)] ex in
  if is_empty message then
    ret (log "INFO" "message cannot be empty" []
           (respond (http_Error "message cannot be empty" StatusBadRequest)
              ex))
  else
    let wsMessage :=
      {| Mode := MessageModeText; Type_ := "message";
         Payload := Some (list_byte_of_string message); ClientID := "" |} in
    Broadcast hub wsMessage ;;;
    ret (respond (WriteHeader StatusOK) ex).

(** [conn.Close()] for the connection a client was built around *)
Definition close_conn_of (client : ptr) : M unit :=
  match client with
  | None => ret tt
  | Some _ =>
      cl <- load client ;;
      match conn cl with
      | Some cn => store client (set_conn cl (Some (conn_Close cn)))
      | None => ret tt
      end
  end.

(** the message a new connection is greeted with *)
Definition greeting : Message :=
  {| Mode := 0; Type_ := "connection";
     Payload := Some (list_byte_of_string "Connected to server");
     ClientID := "" |}.

(** [BroadcastMessage(c)] applied to a request: the upgrade entry point *)
Definition BroadcastMessage (c : Container) (r : Request) (ex : Exchange)
  : M Exchange :=
  l <- MustGet "logger" c ;;
  _ <- as_logger l ;;
  s <- MustGet "hub" c ;;
  hub <- as_hub s ;;
  u <- MustGet "upgrader" c ;;
  Upgrade <- as_upgrader u ;;
  match Upgrade (response ex) r with
  | (rw, inr err) =>
      ret (log "ERROR" "failed to upgrade connection" [("error", err)]
             (respond (fun _ => rw) ex))
  | (rw, inl cn) =>
      let ex := respond (fun _ => rw) ex in
      client <- NewClient "" (Some cn) hub ;;
      err <- AddClient hub client ;;
      match err with
      | Some e =>
          close_conn_of client ;;;
          ret (log "ERROR" "failed to add client" [("error", e)] ex)
      | None =>
          err <- Start client ;;
          match err with
          | Some e =>
              RemoveClient hub client ;;;
              ret (log "ERROR" "failed to start client" [("error", e)] ex)
          | None =>
              send_on_send client greeting ;;;
              ret ex
          end
      end
  end.

(** a container wired as [setupDependencies] does, for the samples *)
Definition accepting (rw : ResponseWriter) (r : Request)
  : ResponseWriter * (Conn + string) :=
  (rw, inl fresh_conn).

Definition wired
  (up : ResponseWriter -> Request -> ResponseWriter * (Conn + string))
  : Container :=
  Register "upgrader" (AnyUpgrader up)
    (Register "hub" (AnyHub the_hub)
       (Register "db" AnyDB
          (Register "logger" AnyLogger
             (Register "config" AnyConfig Container_New)))).

Definition new_exchange : Exchange :=
  {| response := {| status := None; body := "" |}; logged := [] |}.

Definition request_with (message : string) : Request :=
  {| Header := {[ "Message" := [message] ]} |}.

(** a client that has been closed: it keeps its connection, and its send
    queue is sealed *)
Definition shut (cl : Client) : Prop :=
  (exists cn, conn cl = Some cn) /\ closed (send cl) = true.

(* ===================================================================== *)
(** * middleware/chain.go *)
(* ===================================================================== *)

(** [Chain]: the loop [handler = middleware(handler)] over the middlewares
    in the order given; a handler is whatever the middlewares wrap *)
Definition Chain {Handler : Type} (handler : Handler)
  (middlewares : list (Handler -> Handler)) : Handler :=
  fold_left (fun h middleware => middleware h) middlewares handler.

(* ===================================================================== *)
(** * Properties *)
(* ===================================================================== *)




(** ** unicode/utf8: coercion leaves valid strings alone *)

Module UTF8Facts.
Import UTF8.




End UTF8Facts.

(** ** encoding/base64: the decoder inverts the encoder *)

Module Base64Facts.
Import Base64.






















End Base64Facts.

(** ** message.go: the wire envelope *)







(** ** hub.go: membership *)

Lemma put_hub_twice (a : addr) (hb1 hb2 : Hub) (w : World) :
  put_hub a hb2 (put_hub a hb1 w) = put_hub a hb2 w.
Proof. unfold put_hub. cbn. now rewrite insert_insert_eq. Qed.

Lemma AddClient_appends (w : World) (ha a : addr) (hb : Hub) :
  hub_at w !! ha = Some hb ->
  AddClient (Some ha) (Some a) w
  = Ret None (put_hub ha {| clients := clients hb ++ [Some a] |} w).
Proof.
  intros Hh. unfold AddClient, bind, load_hub, store_hub, ret.
  now rewrite Hh.
Qed.

(** C8.  [AddClient(nil)] returns an error and changes nothing; with a
    non-nil client it returns no error and appends that one entry to the
    membership; there is no duplicate check: adding the same client twice
    leaves it in the membership twice. *)
Theorem AddClient_spec (w : World) (ha a : addr) (hb : Hub) :
  hub_at w !! ha = Some hb ->
  AddClient (Some ha) None w = Ret (Some "client cannot be nil") w
  /\ AddClient (Some ha) (Some a) w
     = Ret None (put_hub ha {| clients := clients hb ++ [Some a] |} w)
  /\ (AddClient (Some ha) (Some a) ;;; AddClient (Some ha) (Some a)) w
     = Ret None
         (put_hub ha {| clients := clients hb ++ [Some a; Some a] |} w).
Proof.
  intros Hh. split; [reflexivity|]. split.
  - now apply AddClient_appends.
  - unfold bind at 1. rewrite (AddClient_appends w ha a hb Hh).
    erewrite AddClient_appends
      by (unfold put_hub; cbn; apply lookup_insert_eq).
    cbn [clients]. rewrite put_hub_twice, <- app_assoc. reflexivity.
Qed.

Lemma first_index_none (client : ptr) (l : list ptr) (i : nat) :
  client ∉ l -> first_index client l i = None.
Proof.
  revert i. induction l as [|c r IH]; intros i Hn; [reflexivity|].
  cbn [first_index]. apply not_elem_of_cons in Hn as [Hne Hr].
  rewrite bool_decide_eq_false_2 by congruence. now apply IH.
Qed.

Lemma first_index_split (client : ptr) (l1 l2 : list ptr) (i : nat) :
  client ∉ l1 ->
  first_index client (l1 ++ client :: l2) i = Some (i + length l1)%nat.
Proof.
  revert i. induction l1 as [|c r IH]; intros i Hn; cbn [first_index app].
  - rewrite bool_decide_eq_true_2 by reflexivity. f_equal. cbn. lia.
  - apply not_elem_of_cons in Hn as [Hne Hr].
    rewrite bool_decide_eq_false_2 by congruence.
    rewrite IH by assumption. f_equal. cbn. lia.
Qed.

Lemma cut_split (x : ptr) (l1 l2 : list ptr) :
  cut (length l1) (l1 ++ x :: l2) = l1 ++ l2.
Proof.
  unfold cut. rewrite take_app_length.
  change (S (length l1)) with (1 + length l1)%nat.
  rewrite Nat.add_comm, <- drop_drop, drop_app_length. reflexivity.
Qed.

(** C9.  [RemoveClient] changes nothing when its argument is nil or is not
    in the membership; otherwise it takes out the first matching entry and
    only that one, the other entries keeping their order (so a client that
    occurred twice still occurs once). *)
Theorem RemoveClient_spec (w : World) (ha : addr) (hb : Hub) (client : ptr) :
  hub_at w !! ha = Some hb ->
  RemoveClient (Some ha) None w = Ret tt w
  /\ (client ∉ clients hb -> RemoveClient (Some ha) client w = Ret tt w)
  /\ (forall l1 l2,
        client <> None ->
        clients hb = l1 ++ client :: l2 ->
        client ∉ l1 ->
        RemoveClient (Some ha) client w
        = Ret tt (put_hub ha {| clients := l1 ++ l2 |} w)).
Proof.
  intros Hh. split; [reflexivity|]. split.
  - intros Hn. destruct client as [a|]; [|reflexivity].
    unfold RemoveClient, bind, load_hub. rewrite Hh.
    now rewrite first_index_none.
  - intros l1 l2 Hnil Hsplit Hfirst.
    destruct client as [a|]; [|congruence].
    unfold RemoveClient, bind, load_hub. rewrite Hh, Hsplit.
    rewrite first_index_split by assumption. cbn [Nat.add].
    unfold store_hub. now rewrite cut_split.
Qed.

(** the sample world is the one the constructors build *)
Lemma connect_two_builds : connect_two empty_world = Ret tt two_clients.
Proof. vm_compute. reflexivity. Qed.

Lemma AddClient_spec_witness :
  AddClient (the_hub) None two_clients
  = Ret (Some "client cannot be nil") two_clients
  /\ AddClient (the_hub) alice two_clients
     = Ret None
         (put_hub hub0 {| clients := [alice; bob; alice] |}
            two_clients)
  /\ (AddClient (the_hub) alice ;;;
      AddClient (the_hub) alice) two_clients
     = Ret None
         (put_hub hub0
            {| clients := [alice; bob; alice; alice] |}
            two_clients).
Proof.
  apply (AddClient_spec two_clients hub0 alice_at
           {| clients := [alice; bob] |}).
  reflexivity.
Defined.

Lemma RemoveClient_spec_witness :
  RemoveClient (the_hub) alice alice_twice
  = Ret tt (put_hub hub0 {| clients := [bob; alice] |} alice_twice).
Proof.
  apply (RemoveClient_spec alice_twice hub0
           {| clients := [alice; bob; alice] |}
           alice eq_refl)
    with (l1 := []) (l2 := [bob; alice]).
  - discriminate.
  - reflexivity.
  - apply not_elem_of_nil.
Defined.

(** ** client.go: the heap *)

Lemma load_get (w : World) (a : addr) (cl : Client) :
  client_at w !! a = Some cl -> load (Some a) w = Ret cl w.
Proof. intros Hc. unfold load. now rewrite Hc. Qed.

Lemma get_put (a : addr) (cl : Client) (w : World) :
  client_at (put_client a cl w) !! a = Some cl.
Proof. unfold put_client. cbn. apply lookup_insert_eq. Qed.

Lemma put_client_twice (a : addr) (cl1 cl2 : Client) (w : World) :
  put_client a cl2 (put_client a cl1 w) = put_client a cl2 w.
Proof. unfold put_client. cbn. now rewrite insert_insert_eq. Qed.

Lemma put_client_same (a : addr) (cl : Client) (w : World) :
  client_at w !! a = Some cl -> put_client a cl w = w.
Proof.
  intros Hc. destruct w as [cs hs sp]. unfold put_client. cbn in *.
  now rewrite insert_id.
Qed.

Lemma chan_send_room (ch : Chan) (m : Message) :
  closed ch = false -> (length (buf ch) < cap ch)%nat ->
  chan_send ch m = Sent (enqueue ch m).
Proof.
  intros Ho Hr. unfold chan_send. rewrite Ho.
  apply Nat.ltb_lt in Hr. now rewrite Hr.
Qed.

Section PumpFacts.

Context `{TextLayer}.

(** ** client.go: the read side *)

Lemma handleDataMessage_decoded (w : World) (a : addr) (cl : Client)
  (messageType : Z) (payload : list byte) (msg : Message) :
  client_at w !! a = Some cl ->
  json_Unmarshal payload = Some msg ->
  closed (receive cl) = false ->
  (length (buf (receive cl)) < cap (receive cl))%nat ->
  handleDataMessage (Some a) messageType payload w
  = Ret None
      (put_client a
         (set_receive cl (enqueue (receive cl) (stamped cl messageType msg)))
         w).
Proof.
  intros Hc Hd Ho Hr. unfold handleDataMessage. rewrite Hd.
  unfold bind. rewrite (load_get w a cl Hc).
  unfold send_on_receive, bind. rewrite (load_get w a cl Hc).
  now rewrite chan_send_room.
Qed.

Lemma handleDataMessage_malformed (w : World) (a : addr) (cl : Client)
  (messageType : Z) (payload : list byte) :
  client_at w !! a = Some cl ->
  json_Unmarshal payload = None ->
  closed (send cl) = false ->
  (length (buf (send cl)) < cap (send cl))%nat ->
  handleDataMessage (Some a) messageType payload w
  = Ret None
      (put_client a (set_send cl (enqueue (send cl) (notice messageType))) w).
Proof.
  intros Hc Hd Ho Hr. unfold handleDataMessage. rewrite Hd.
  unfold send_on_send, bind. rewrite (load_get w a cl Hc).
  now rewrite chan_send_room.
Qed.

(** with the send queue full the notice is not dropped: the read pump
    waits with the state as it was *)
Lemma handleDataMessage_malformed_full (w : World) (a : addr) (cl : Client)
  (messageType : Z) (payload : list byte) :
  client_at w !! a = Some cl ->
  json_Unmarshal payload = None ->
  closed (send cl) = false ->
  (cap (send cl) <= length (buf (send cl)))%nat ->
  handleDataMessage (Some a) messageType payload w = Parked w.
Proof.
  intros Hc Hd Ho Hr. unfold handleDataMessage. rewrite Hd.
  unfold send_on_send, bind, chan_send. rewrite (load_get w a cl Hc), Ho.
  apply Nat.ltb_ge in Hr. now rewrite Hr.
Qed.

(** with the receive queue full the decoded message is not dropped either *)
Lemma handleDataMessage_decoded_full (w : World) (a : addr) (cl : Client)
  (messageType : Z) (payload : list byte) (msg : Message) :
  client_at w !! a = Some cl ->
  json_Unmarshal payload = Some msg ->
  closed (receive cl) = false ->
  (cap (receive cl) <= length (buf (receive cl)))%nat ->
  handleDataMessage (Some a) messageType payload w = Parked w.
Proof.
  intros Hc Hd Ho Hr. unfold handleDataMessage. rewrite Hd.
  unfold bind. rewrite (load_get w a cl Hc).
  unfold send_on_receive, bind, chan_send. rewrite (load_get w a cl Hc), Ho.
  apply Nat.ltb_ge in Hr. now rewrite Hr.
Qed.

Lemma handleMessage_data (c : ptr) (messageType : Z) (payload : list byte) :
  data_kind messageType ->
  handleMessage c messageType payload
  = handleDataMessage c messageType payload.
Proof. intros [-> | ->]; reflexivity. Qed.

(** one round of the read loop on a live connection *)
Lemma readLoop_frame (w : World) (a : addr) (cl : Client) (cn : Conn)
  (messageType : Z) (payload : list byte) (incoming : list ReadEvent) :
  client_at w !! a = Some cl ->
  conn cl = Some cn -> conn_closed cn = false ->
  readLoop (Some a) (ReadFrame messageType payload :: incoming) w
  = match handleMessage (Some a) messageType payload w with
    | Ret None w' => readLoop (Some a) incoming w'
    | Ret (Some _) w' => Ret tt w'
    | Parked w' => Parked w'
    | Panic why => Panic why
    end.
Proof.
  intros Hc Hn Ho. cbn [readLoop]. unfold bind at 1.
  rewrite (load_get w a cl Hc), Hn, Ho. unfold bind.
  destruct (handleMessage (Some a) messageType payload w) as [[e|] w'|w'|why];
    reflexivity.
Qed.


(** C3.  On a live client (connection open, send queue open with room), a
    data frame whose payload does not decode puts exactly one message of
    type [error] at the back of that client's send queue and leaves its
    receive queue and connection as they were; the handler reports no
    error, so the read loop goes on with the next frame, and a later frame
    that decodes is enqueued onto the receive queue as usual. *)
Theorem malformed_frame_notice (w : World) (a : addr) (cl : Client)
  (cn : Conn) (messageType : Z) (bad : list byte) :
  client_at w !! a = Some cl ->
  conn cl = Some cn -> conn_closed cn = false ->
  closed (send cl) = false ->
  (length (buf (send cl)) < cap (send cl))%nat ->
  data_kind messageType ->
  json_Unmarshal bad = None ->
  let cl' := set_send cl (enqueue (send cl) (notice messageType)) in
  let w' := put_client a cl' w in
  handleMessage (Some a) messageType bad w = Ret None w'
  /\ Type_ (notice messageType) = "error"
  /\ buf (send cl') = buf (send cl) ++ [notice messageType]
  /\ receive cl' = receive cl
  /\ conn cl' = conn cl
  /\ (forall incoming,
        readLoop (Some a) (ReadFrame messageType bad :: incoming) w
        = readLoop (Some a) incoming w')
  /\ (forall kind2 good msg,
        data_kind kind2 ->
        json_Unmarshal good = Some msg ->
        closed (receive cl) = false ->
        (length (buf (receive cl)) < cap (receive cl))%nat ->
        handleMessage (Some a) kind2 good w'
        = Ret None
            (put_client a
               (set_receive cl' (enqueue (receive cl) (stamped cl kind2 msg)))
               w')).
Proof.
  intros Hc Hn Ho Hs Hr Hk Hd cl' w'.
  assert (Hh : handleMessage (Some a) messageType bad w = Ret None w').
  { rewrite (handleMessage_data _ _ _ Hk).
    now apply handleDataMessage_malformed. }
  repeat split; try exact Hh.
  - intros incoming.
    rewrite (readLoop_frame w a cl cn) by assumption. now rewrite Hh.
  - intros kind2 good msg Hk2 Hd2 Ho2 Hr2.
    rewrite (handleMessage_data _ _ _ Hk2).
    apply (handleDataMessage_decoded w' a cl'); try assumption.
    apply get_put.
Qed.

Lemma handleMessage_unknown (c : ptr) (messageType : Z) (payload : list byte)
  (w : World) :
  unknown_kind messageType ->
  handleMessage c messageType payload w = Ret None w.
Proof.
  intros (Ht & Hb & Hc & Hpi & Hpo). unfold handleMessage.
  rewrite (proj2 (Z.eqb_neq _ _) Ht), (proj2 (Z.eqb_neq _ _) Hb),
    (proj2 (Z.eqb_neq _ _) Hc), (proj2 (Z.eqb_neq _ _) Hpi),
    (proj2 (Z.eqb_neq _ _) Hpo).
  reflexivity.
Qed.

(** C10.  A frame whose kind is none of text, binary, close, ping and pong
    is ignored: the handler returns no error and leaves the whole state
    (both queues of every client, every connection) as it was, and the read
    loop goes on with the frames that follow. *)
Theorem unknown_frame_ignored (c : ptr) (messageType : Z)
  (payload : list byte) (w : World) :
  unknown_kind messageType ->
  handleMessage c messageType payload w = Ret None w
  /\ (forall incoming,
        readLoop c (ReadFrame messageType payload :: incoming) w
        = readLoop c incoming w)
  /\ (forall incoming,
        readPump c (ReadFrame messageType payload :: incoming) w
        = readPump c incoming w).
Proof.
  intros Hu. split; [now apply handleMessage_unknown|].
  assert (Hloop : forall incoming,
             readLoop c (ReadFrame messageType payload :: incoming) w
             = readLoop c incoming w);
    [|split; [exact Hloop|];
      intros incoming; unfold readPump, bind; now rewrite Hloop].
  intros incoming.
  destruct c as [a|];
    [|destruct incoming as [|[]]; reflexivity].
  destruct (client_at w !! a) as [cl|] eqn:Hc.
  - destruct (conn cl) as [cn|] eqn:Hn.
    + destruct (conn_closed cn) eqn:Ho.
      * destruct incoming as [|[] ?]; cbn [readLoop]; unfold bind;
          rewrite (load_get w a cl Hc), Hn, Ho; reflexivity.
      * rewrite (readLoop_frame w a cl cn) by assumption.
        now rewrite handleMessage_unknown.
    + destruct incoming as [|[] ?]; cbn [readLoop]; unfold bind;
        rewrite (load_get w a cl Hc), Hn; reflexivity.
  - destruct incoming as [|[] ?]; cbn [readLoop]; unfold bind, load;
      rewrite Hc; reflexivity.
Qed.


(** ** client.go: the write side *)



(** one round of the write pump: the frame for [msg] is handed to
    [WriteMessage], and the round asks for the next one whatever the call
    returned *)
Lemma writeOne_writes (w : World) (a : addr) (cl : Client) (cn : Conn)
  (msg : Message) :
  client_at w !! a = Some cl -> conn cl = Some cn ->
  writeOne (Some a) msg w
  = Ret true
      (put_client a (set_conn cl (Some (write_all cn [frame_of msg]))) w).
Proof.
  intros Hc Hn. unfold writeOne, frame_of, frame_kind, json_Marshal.
  cbn [write_all kind data].
  destruct (Mode msg =? MessageModeBinary)%Z;
    unfold WriteMessage, bind; rewrite (load_get w a cl Hc), Hn;
    destruct (conn_WriteMessage cn _ _) as [cn' err]; reflexivity.
Qed.

Lemma writeLoop_drains (a : addr) (queue : list Message) :
  forall (w : World) (cl : Client) (cn : Conn),
    client_at w !! a = Some cl -> conn cl = Some cn ->
    buf (send cl) = queue ->
    writeLoop (Some a) queue w
    = if closed (send cl) then Ret tt (put_client a (drained cl cn queue) w)
      else Parked (put_client a (drained cl cn queue) w).
Proof.
  induction queue as [|msg rest IH]; intros w cl cn Hc Hn Hq.
  - cbn [writeLoop]. unfold bind. rewrite (load_get w a cl Hc).
    assert (Hd : drained cl cn [] = cl).
    { unfold drained. cbn [map write_all].
      destruct cl as [i c [b k o] r h]. cbn in *. now subst. }
    rewrite Hd, (put_client_same a cl w Hc). unfold ret, park.
    now destruct (closed (send cl)).
  - cbn [writeLoop]. unfold bind at 1. rewrite (load_get w a cl Hc).
    unfold bind at 1. unfold store at 1.
    set (cl1 := set_send cl (set_buf (send cl) rest)).
    set (w1 := put_client a cl1 w).
    unfold bind at 1.
    rewrite (writeOne_writes w1 a cl1 cn) by (apply get_put || exact Hn).
    set (cn2 := write_all cn [frame_of msg]).
    set (cl2 := set_conn cl1 (Some cn2)).
    rewrite (IH (put_client a cl2 w1) cl2 cn2)
      by (apply get_put || reflexivity).
    unfold w1. rewrite !put_client_twice.
    replace (drained cl2 cn2 rest) with (drained cl cn (msg :: rest))
      by reflexivity.
    reflexivity.
Qed.


End PumpFacts.

(** ** Examples on the sample text layer *)


Lemma malformed_frame_notice_witness :
  @handleMessage demo_text alice BinaryMessage garbage two_clients
  = Ret None
      (put_client alice_at
         (set_send (member "alice")
            (enqueue (make_chan 256) (notice BinaryMessage)))
         two_clients).
Proof.
  apply (@malformed_frame_notice demo_text two_clients alice_at
           (member "alice") fresh_conn BinaryMessage garbage).
  - reflexivity.
  - reflexivity.
  - reflexivity.
  - reflexivity.
  - cbn. lia.
  - right. reflexivity.
  - vm_compute. reflexivity.
Defined.

Lemma unknown_frame_ignored_witness :
  @handleMessage demo_text alice 7 garbage two_clients
  = Ret None two_clients.
Proof.
  apply (@unknown_frame_ignored demo_text alice 7 garbage two_clients).
  unfold unknown_kind, TextMessage, BinaryMessage, CloseMessage, PingMessage,
    PongMessage.
  lia.
Defined.


(** ** client.go: closing *)

Lemma Client_Close_absent (w : World) (a : addr) (cl : Client) :
  client_at w !! a = Some cl -> conn cl = None ->
  Client_Close (Some a) w = Ret tt w.
Proof.
  intros Hc Hn. unfold Client_Close, bind.
  now rewrite (load_get w a cl Hc), Hn.
Qed.

(** the first [Close] of a live client closes the connection and seals both
    queues, keeping what they hold *)
Lemma Client_Close_seals (w : World) (a : addr) (cl : Client) (cn : Conn) :
  client_at w !! a = Some cl -> conn cl = Some cn ->
  closed (send cl) = false -> closed (receive cl) = false ->
  Client_Close (Some a) w
  = Ret tt
      (put_client a
         {| ID := ID cl; conn := Some (conn_Close cn);
            send := {| buf := buf (send cl); cap := cap (send cl);
                       closed := true |};
            receive := {| buf := buf (receive cl); cap := cap (receive cl);
                          closed := true |};
            hub := hub cl |} w).
Proof.
  intros Hc Hn Hs Hr. unfold Client_Close, bind.
  rewrite (load_get w a cl Hc), Hn. unfold store at 1.
  unfold close_send, bind. rewrite (load_get _ a _ (get_put a _ w)).
  unfold chan_close. cbn [set_conn send]. rewrite Hs.
  unfold store at 1. rewrite put_client_twice.
  unfold close_receive, bind. rewrite (load_get _ a _ (get_put a _ w)).
  unfold chan_close. cbn [set_send set_conn receive]. rewrite Hr.
  unfold store. rewrite put_client_twice. reflexivity.
Qed.

(** [Close] never clears [c.conn]: on a client whose send queue is already
    sealed it closes that queue again *)
Lemma Client_Close_again (w : World) (a : addr) (cl : Client) (cn : Conn) :
  client_at w !! a = Some cl -> conn cl = Some cn ->
  closed (send cl) = true ->
  Client_Close (Some a) w = Panic "close of closed channel".
Proof.
  intros Hc Hn Hs. unfold Client_Close, bind.
  rewrite (load_get w a cl Hc), Hn. unfold store at 1.
  unfold close_send, bind. rewrite (load_get _ a _ (get_put a _ w)).
  unfold chan_close. cbn [set_conn send]. now rewrite Hs.
Qed.

(** C4, evaluated.  Closing alice twice panics on the second call, and so
    does the package's own shutdown: [Hub.Close] closes alice, her read pump
    then sees the closed connection, returns, and its deferred [Close]
    closes her queues a second time. *)
Theorem Close_twice_panics :
  (Client_Close alice ;;; Client_Close alice) two_clients
  = Panic "close of closed channel"
  /\ (Hub_Close (the_hub) ;;; @readPump demo_text alice [])
       two_clients
     = Panic "close of closed channel".
Proof. split; vm_compute; reflexivity. Qed.

(** ** hub.go: delivery *)

Lemma send_on_closed (w : World) (a : addr) (cl : Client) (m : Message) :
  client_at w !! a = Some cl -> closed (send cl) = true ->
  send_on_send (Some a) m w = Panic "send on closed channel".
Proof.
  intros Hc Hs. unfold send_on_send, bind, chan_send.
  now rewrite (load_get w a cl Hc), Hs.
Qed.

Lemma dispatch_spawns (targets : list ptr) (m : Message) (w : World) :
  dispatch targets m w
  = Ret tt {| client_at := client_at w; hub_at := hub_at w;
              spawned := spawned w ++ map (fun c => GoSend c m) targets |}.
Proof.
  revert w. induction targets as [|c r IH]; intros w; cbn [dispatch map].
  - unfold ret. rewrite app_nil_r. now destruct w.
  - unfold bind, go. rewrite IH. cbn. now rewrite <- app_assoc.
Qed.

(** a broadcast launches one sender per member and touches no client: the
    sender for a member whose send queue is sealed panics when it runs *)
Lemma Broadcast_sender_panics (w : World) (ha a : addr) (hb : Hub)
  (cl : Client) (m : Message) :
  hub_at w !! ha = Some hb -> Some a ∈ clients hb ->
  client_at w !! a = Some cl -> closed (send cl) = true ->
  exists w',
    Broadcast (Some ha) m w = Ret tt w'
    /\ GoSend (Some a) m ∈ spawned w'
    /\ send_on_send (Some a) m w' = Panic "send on closed channel".
Proof.
  intros Hh Hin Hc Hs. unfold Broadcast, bind, load_hub. rewrite Hh.
  rewrite dispatch_spawns. eexists. split; [reflexivity|]. split.
  - cbn [spawned]. apply elem_of_app. right.
    apply (list_elem_of_fmap_2 (fun c => GoSend c m)) in Hin. exact Hin.
  - now apply (send_on_closed _ a cl).
Qed.

(** C1, evaluated.  With alice closed while still a member, [Broadcast]
    returns after launching a sender for alice and one for bob; alice's
    sender panics whether it runs first or after bob's, and the panic stops
    the process.  The same happens when alice's read pump ends between the
    snapshot and her sender. *)
Theorem Broadcast_closed_member_panics :
  (exists w',
     (Client_Close alice ;;; Broadcast (the_hub) announcement)
       two_clients = Ret tt w'
     /\ spawned w' = [GoSend alice announcement;
                      GoSend (bob) announcement]
     /\ @run demo_text [] (GoSend alice announcement) w'
        = Panic "send on closed channel"
     /\ (@run demo_text [] (GoSend (bob) announcement) ;;;
         @run demo_text [] (GoSend alice announcement)) w'
        = Panic "send on closed channel")
  /\ (exists w',
        (Broadcast (the_hub) announcement ;;;
         @readPump demo_text alice []) two_clients = Ret tt w'
        /\ In (GoSend alice announcement) (spawned w')
        /\ @run demo_text [] (GoSend alice announcement) w'
           = Panic "send on closed channel").
Proof.
  split; eexists; (split; [vm_compute; reflexivity|]).
  - repeat split; vm_compute; reflexivity.
  - split; [left; reflexivity | vm_compute; reflexivity].
Qed.

(** C2, evaluated.  alice has two messages queued and the first write
    fails: the write pump still takes the second message off the queue and
    writes it, and only then waits on the empty queue.  On a connection
    that is closed, where every write fails, it likewise calls
    [WriteMessage] for both messages before it waits. *)
Theorem writePump_goes_on_after_failed_write :
  @writePump demo_text alice two_queued
  = Parked
      (put_client alice_at
         {| ID := "alice";
            conn :=
              Some {| failing := [];
                      wire := [(@frame_of demo_text chat_message, false);
                               (@frame_of demo_text announcement, true)];
                      conn_closed := false |};
            send := make_chan 256;
            receive := make_chan 256;
            hub := the_hub |}
         two_clients)
  /\ @writePump demo_text alice
       (put_client alice_at
          (set_conn alice_queued (Some (conn_Close fresh_conn))) two_clients)
     = Parked
         (put_client alice_at
            {| ID := "alice";
               conn :=
                 Some {| failing := [];
                         wire := [(@frame_of demo_text chat_message, false);
                                  (@frame_of demo_text announcement, false)];
                         conn_closed := true |};
               send := make_chan 256;
               receive := make_chan 256;
               hub := the_hub |}
            two_clients).
Proof. split; vm_compute; reflexivity. Qed.

(* ===================================================================== *)
(** * Further properties of the package *)
(* ===================================================================== *)

(** ** client.go: construction and start *)

Lemma fresh_client_free (w : World) :
  client_at w !! fresh (dom (client_at w)) = None.
Proof. apply not_elem_of_dom, is_fresh. Qed.

Lemma fresh_hub_free (w : World) :
  hub_at w !! fresh (dom (hub_at w)) = None.
Proof. apply not_elem_of_dom, is_fresh. Qed.

(** X1.  [NewClient] returns a non-nil pointer to an address no client had:
    the new client has the given id, connection and hub, and two empty open
    queues of capacity 256; every client that existed is still there
    unchanged, and so are the hubs (the client is in no membership until
    [AddClient]) and the launched goroutines. *)
Theorem NewClient_allocates (id : string) (cn : option Conn) (h : ptr)
  (w : World) :
  exists a w',
    NewClient id cn h w = Ret (Some a) w'
    /\ client_at w !! a = None
    /\ client_at w' !! a
       = Some {| ID := id; conn := cn;
                 send := {| buf := []; cap := 256; closed := false |};
                 receive := {| buf := []; cap := 256; closed := false |};
                 hub := h |}
    /\ (forall b cl, client_at w !! b = Some cl -> client_at w' !! b = Some cl)
    /\ hub_at w' = hub_at w
    /\ spawned w' = spawned w.
Proof.
  unfold NewClient. set (a := fresh (dom (client_at w))).
  assert (Ha : client_at w !! a = None) by apply fresh_client_free.
  eexists a, _. split; [reflexivity|]. split; [exact Ha|].
  split; [apply get_put|]. split; [|split; reflexivity].
  intros b cl Hb. unfold put_client. cbn.
  rewrite lookup_insert_ne; [exact Hb|]. intros ->. congruence.
Qed.

(** X2.  [Start] on a client without a connection returns the error and
    launches nothing; on a client with a connection it returns no error and
    launches the read pump and then the write pump.  In both cases clients
    and hubs are as before. *)
Theorem Start_launches_pumps (w : World) (a : addr) (cl : Client) :
  client_at w !! a = Some cl ->
  Start (Some a) w
  = match conn cl with
    | None => Ret (Some "connection not initialized") w
    | Some _ =>
        Ret None (launched [GoReadPump (Some a); GoWritePump (Some a)] w)
    end.
Proof.
  intros Hc. unfold Start, bind. rewrite (load_get w a cl Hc).
  destruct (conn cl); [|reflexivity].
  unfold go, launched, ret. cbn. now rewrite <- app_assoc.
Qed.

Lemma Start_launches_pumps_witness :
  Start alice two_clients
  = Ret None (launched [GoReadPump alice; GoWritePump alice] two_clients).
Proof.
  apply (Start_launches_pumps two_clients alice_at (member "alice")).
  reflexivity.
Defined.

(** ** client.go: how the read pump ends *)

Lemma put_hub_same (a : addr) (hb : Hub) (w : World) :
  hub_at w !! a = Some hb -> put_hub a {| clients := clients hb |} w = w.
Proof.
  intros Hh. destruct w as [cs hs sp], hb as [l]. unfold put_hub. cbn in *.
  now rewrite insert_id.
Qed.

Lemma RemoveClient_without (w : World) (ha a : addr) (hb : Hub) :
  hub_at w !! ha = Some hb ->
  RemoveClient (Some ha) (Some a) w
  = Ret tt (put_hub ha {| clients := without (Some a) (clients hb) |} w).
Proof.
  intros Hh. unfold RemoveClient, bind, load_hub, without. rewrite Hh.
  destruct (first_index (Some a) (clients hb) 0); [reflexivity|].
  unfold ret. now rewrite put_hub_same.
Qed.

Section ReadSide.

Context `{TextLayer}.

Lemma readLoop_ends (w : World) (a : addr) (cl : Client) (cn : Conn)
  (incoming : list ReadEvent) :
  client_at w !! a = Some cl -> conn cl = Some cn ->
  read_ends cn incoming ->
  readLoop (Some a) incoming w = Ret tt w.
Proof.
  intros Hc Hn He.
  assert (Hstart : forall k,
             (cl0 <- load (Some a) ;;
              match conn cl0 with
              | None => panic nil_dereference
              | Some cn0 => if conn_closed cn0 then ret tt else k
              end) w
             = if conn_closed cn then Ret tt w else k w).
  { intros k. unfold bind. rewrite (load_get w a cl Hc), Hn.
    now destruct (conn_closed cn). }
  destruct incoming as [|[messageType payload|] rest]; cbn [readLoop];
    rewrite Hstart; destruct (conn_closed cn) eqn:Ho; try reflexivity.
  destruct He as [He|He]; [congruence|]. subst messageType.
  reflexivity.
Qed.

(** X3.  When the read fails (an error, the end of the stream, a closed
    connection) or a close frame arrives, the read pump handles no further
    frame and runs its cleanup: the first entry for the client leaves the
    membership of its hub, the connection is closed and both queues are
    sealed, keeping the messages they hold. *)
Theorem readPump_cleans_up (w : World) (a ha : addr) (cl : Client)
  (cn : Conn) (hb : Hub) (incoming : list ReadEvent) :
  client_at w !! a = Some cl -> conn cl = Some cn ->
  closed (send cl) = false -> closed (receive cl) = false ->
  hub cl = Some ha -> hub_at w !! ha = Some hb ->
  read_ends cn incoming ->
  readPump (Some a) incoming w
  = Ret tt
      (put_client a (sealed cl cn)
         (put_hub ha {| clients := without (Some a) (clients hb) |} w)).
Proof.
  intros Hc Hn Hs Hr Hh Hhub He. unfold readPump.
  unfold bind at 1. rewrite (readLoop_ends w a cl cn incoming Hc Hn He).
  unfold bind at 1. rewrite (load_get w a cl Hc), Hh.
  unfold bind. rewrite (RemoveClient_without w ha a hb Hhub).
  now apply Client_Close_seals.
Qed.


End ReadSide.

Lemma readPump_cleans_up_witness :
  @readPump demo_text alice
    [ReadFrame CloseMessage []; ReadFrame TextMessage chat_payload]
    two_clients
  = Ret tt
      (put_client alice_at (sealed (member "alice") fresh_conn)
         (put_hub hub0 {| clients := [bob] |} two_clients)).
Proof.
  apply (@readPump_cleans_up demo_text two_clients alice_at hub0
           (member "alice") fresh_conn {| clients := [alice; bob] |}).
  - reflexivity.
  - reflexivity.
  - reflexivity.
  - reflexivity.
  - reflexivity.
  - reflexivity.
  - right. reflexivity.
Defined.


(** ** client.go: closing *)

(** X5.  The first [Close] of a client with a connection and open queues
    closes the connection and seals both queues, keeping the messages they
    hold and leaving id and hub as they were; [Close] of a client without a
    connection changes nothing. *)
Theorem Close_seals_once (w : World) (a : addr) (cl : Client) :
  client_at w !! a = Some cl ->
  (conn cl = None -> Client_Close (Some a) w = Ret tt w)
  /\ (forall cn,
        conn cl = Some cn ->
        closed (send cl) = false -> closed (receive cl) = false ->
        Client_Close (Some a) w = Ret tt (put_client a (sealed cl cn) w)).
Proof.
  intros Hc. split.
  - now apply Client_Close_absent.
  - intros cn Hn Hs Hr. now apply Client_Close_seals.
Qed.

Lemma Close_seals_once_witness :
  Client_Close alice two_clients
  = Ret tt (put_client alice_at (sealed (member "alice") fresh_conn)
              two_clients).
Proof.
  apply (Close_seals_once two_clients alice_at (member "alice") eq_refl);
    reflexivity.
Defined.

Lemma write_all_closed (fs : list Frame) (cn : Conn) :
  conn_closed cn = true ->
  write_all cn fs
  = {| failing := failing cn;
       wire := wire cn ++ map (fun f => (f, false)) fs;
       conn_closed := true |}.
Proof.
  revert cn. induction fs as [|f r IH]; intros cn Ho; cbn [write_all map].
  - rewrite app_nil_r. destruct cn. cbn in *. now subst.
  - unfold conn_WriteMessage. rewrite Ho. cbn [fst].
    rewrite IH by exact Ho. cbn [log_write failing wire].
    destruct f as [k d]. cbn [kind data]. now rewrite <- app_assoc.
Qed.

Section WriteSide.

Context `{TextLayer}.

(** X6.  Once a client is closed its write pump comes to an end: run after
    [Close], it takes every message still queued off the send queue, calls
    [WriteMessage] for each (every one of these writes fails, on the closed
    connection), and returns. *)
Theorem writePump_returns_after_Close (w : World) (a : addr) (cl : Client)
  (cn : Conn) :
  client_at w !! a = Some cl -> conn cl = Some cn ->
  closed (send cl) = false -> closed (receive cl) = false ->
  (Client_Close (Some a) ;;; writePump (Some a)) w
  = Ret tt
      (put_client a
         {| ID := ID cl;
            conn :=
              Some {| failing := failing cn;
                      wire := wire cn
                              ++ map (fun m => (frame_of m, false))
                                   (buf (send cl));
                      conn_closed := true |};
            send := {| buf := []; cap := cap (send cl); closed := true |};
            receive := {| buf := buf (receive cl); cap := cap (receive cl);
                          closed := true |};
            hub := hub cl |} w).
Proof.
  intros Hc Hn Hs Hr. unfold bind at 1.
  rewrite (Client_Close_seals w a cl cn Hc Hn Hs Hr).
  fold (sealed cl cn). unfold writePump, bind.
  rewrite (load_get _ a _ (get_put a (sealed cl cn) w)).
  rewrite (writeLoop_drains a _ _ (sealed cl cn) (conn_Close cn)
             (get_put a _ w) eq_refl eq_refl).
  cbn [sealed send closed]. rewrite put_client_twice.
  unfold drained. rewrite write_all_closed by reflexivity.
  cbn. now rewrite map_map.
Qed.

End WriteSide.

Lemma writePump_returns_after_Close_witness :
  (Client_Close alice ;;; @writePump demo_text alice) two_queued
  = Ret tt
      (put_client alice_at
         {| ID := "alice";
            conn :=
              Some {| failing := [true];
                      wire := [(@frame_of demo_text chat_message, false);
                               (@frame_of demo_text announcement, false)];
                      conn_closed := true |};
            send := {| buf := []; cap := 256; closed := true |};
            receive := {| buf := []; cap := 256; closed := true |};
            hub := the_hub |} two_queued).
Proof.
  apply (@writePump_returns_after_Close demo_text two_queued alice_at
           alice_queued flaky_conn); reflexivity.
Defined.

(** ** hub.go: fan-out *)

(** an operation that rewrites one client, run for distinct clients in
    turn, rewrites each of them and nothing else *)
Lemma each_client (op : ptr -> M unit) (f : Client -> Client)
  (P : Client -> Prop) :
  (forall w a cl,
      client_at w !! a = Some cl -> P cl ->
      op (Some a) w = Ret tt (put_client a (f cl) w)) ->
  forall (addrs : list addr) (w : World),
    NoDup addrs ->
    (forall a, a ∈ addrs -> exists cl, client_at w !! a = Some cl /\ P cl) ->
    exists w',
      foldr (fun a k => op (Some a) ;;; k) (ret tt) addrs w = Ret tt w'
      /\ (forall a cl, a ∈ addrs -> client_at w !! a = Some cl ->
                       client_at w' !! a = Some (f cl))
      /\ (forall b, b ∉ addrs -> client_at w' !! b = client_at w !! b)
      /\ hub_at w' = hub_at w
      /\ spawned w' = spawned w.
Proof.
  intros Hop. induction addrs as [|a r IH]; intros w Hnd Hall.
  - exists w. split; [reflexivity|]. split; [|auto].
    intros a cl Ha. now apply elem_of_nil in Ha.
  - apply NoDup_cons in Hnd as [Har Hnd].
    destruct (Hall a) as (cl & Hc & Hp); [left|].
    cbn [foldr]. unfold bind at 1. rewrite (Hop w a cl Hc Hp).
    set (w1 := put_client a (f cl) w).
    assert (Hother : forall b, b <> a ->
                       client_at w1 !! b = client_at w !! b).
    { intros b Hb. unfold w1, put_client. cbn.
      now rewrite lookup_insert_ne by congruence. }
    destruct (IH w1 Hnd) as (w' & Hrun & Hin & Hout & Hh & Hs).
    { intros b Hb. rewrite Hother by (intros ->; contradiction).
      apply Hall. now right. }
    exists w'. split; [exact Hrun|]. split; [|split; [|split]].
    + intros b clb Hb Hcb. apply elem_of_cons in Hb as [->|Hb].
      * rewrite Hout by exact Har. unfold w1. rewrite get_put. congruence.
      * apply Hin; [exact Hb|].
        rewrite Hother by (intros ->; contradiction). exact Hcb.
    + intros b Hb. apply not_elem_of_cons in Hb as [Hba Hbr].
      rewrite Hout by exact Hbr. now apply Hother.
    + now rewrite Hh.
    + now rewrite Hs.
Qed.


Lemma launched_clients (gs : list goroutine) (w : World) :
  client_at (launched gs w) = client_at w.
Proof. reflexivity. Qed.

Lemma Broadcast_run (w : World) (ha : addr) (hb : Hub) (m : Message) :
  hub_at w !! ha = Some hb ->
  Broadcast (Some ha) m w = Ret tt (launched (senders (clients hb) m) w).
Proof.
  intros Hh. unfold Broadcast, bind, load_hub. rewrite Hh.
  apply dispatch_spawns.
Qed.

(** X7.  [Broadcast] returns at once: it launches one sender goroutine for
    every entry of the membership, in membership order, and changes neither
    a client nor a hub (no message is enqueued by [Broadcast] itself).  It
    is [SendToClients] on the membership, which does the same for any list
    of targets and never looks at its hub. *)
Theorem Broadcast_launches_senders (w : World) (ha : addr) (hb : Hub)
  (m : Message) :
  hub_at w !! ha = Some hb ->
  Broadcast (Some ha) m w = Ret tt (launched (senders (clients hb) m) w)
  /\ (forall (h : ptr) (targets : list ptr),
        SendToClients h targets m w
        = Ret tt (launched (senders targets m) w)).
Proof.
  intros Hh. split.
  - now apply Broadcast_run.
  - intros h targets. unfold SendToClients. apply dispatch_spawns.
Qed.

Lemma Broadcast_launches_senders_witness :
  Broadcast the_hub announcement two_clients
  = Ret tt
      (launched [GoSend alice announcement; GoSend bob announcement]
         two_clients).
Proof.
  apply (Broadcast_launches_senders two_clients hub0
           {| clients := [alice; bob] |} announcement).
  reflexivity.
Defined.

Section Delivery.

Context `{TextLayer}.



End Delivery.


(** ** hub.go: shutdown and membership round trips *)

Lemma Client_Close_closable (w : World) (a : addr) (cl : Client) :
  client_at w !! a = Some cl -> closable cl ->
  Client_Close (Some a) w = Ret tt (put_client a (after_Close cl) w).
Proof.
  intros Hc Hp. unfold closable, after_Close in *.
  destruct (conn cl) as [cn|] eqn:Hn.
  - destruct Hp as [Hs Hr]. now apply (Client_Close_seals w a cl cn).
  - rewrite (put_client_same a cl w Hc).
    now apply (Client_Close_absent w a cl).
Qed.

Lemma close_each_foldr (addrs : list addr) :
  close_each (map Some addrs)
  = foldr (fun a k => Client_Close (Some a) ;;; k) (ret tt) addrs.
Proof.
  induction addrs as [|a r IH]; [reflexivity|].
  cbn [map close_each foldr]. now rewrite IH.
Qed.

(** X9.  [Hub.Close] on a hub whose members are distinct clients, each
    without a connection or with open queues, closes every member (its
    connection closed, both queues sealed), empties the membership, and
    touches no other client and no other hub. *)
Theorem Hub_Close_closes_members (w : World) (ha : addr) (hb : Hub)
  (addrs : list addr) :
  hub_at w !! ha = Some hb ->
  clients hb = map Some addrs ->
  NoDup addrs ->
  (forall a, a ∈ addrs ->
     exists cl, client_at w !! a = Some cl /\ closable cl) ->
  exists w',
    Hub_Close (Some ha) w = Ret tt w'
    /\ hub_at w' !! ha = Some {| clients := [] |}
    /\ (forall a cl, a ∈ addrs -> client_at w !! a = Some cl ->
          client_at w' !! a = Some (after_Close cl))
    /\ (forall b, b ∉ addrs -> client_at w' !! b = client_at w !! b)
    /\ (forall hc, hc <> ha -> hub_at w' !! hc = hub_at w !! hc).
Proof.
  intros Hh Hm Hnd Hall. unfold Hub_Close, bind at 1, load_hub.
  rewrite Hh, Hm, close_each_foldr.
  destruct (each_client Client_Close after_Close closable
              Client_Close_closable addrs w Hnd Hall)
    as (w1 & Hrun & Hin & Hout & Hhubs & _).
  unfold bind at 1. rewrite Hrun. unfold store_hub.
  eexists. split; [reflexivity|]. unfold put_hub. cbn.
  split; [apply lookup_insert_eq|]. split; [exact Hin|].
  split; [exact Hout|].
  intros hc Hne. rewrite lookup_insert_ne by congruence. now rewrite Hhubs.
Qed.

Lemma Hub_Close_closes_members_witness :
  exists w',
    Hub_Close the_hub two_queued = Ret tt w'
    /\ hub_at w' !! hub0 = Some {| clients := [] |}
    /\ (forall a cl, a ∈ [alice_at; bob_at] ->
          client_at two_queued !! a = Some cl ->
          client_at w' !! a = Some (after_Close cl))
    /\ (forall b, b ∉ [alice_at; bob_at] ->
          client_at w' !! b = client_at two_queued !! b)
    /\ (forall hc, hc <> hub0 -> hub_at w' !! hc = hub_at two_queued !! hc).
Proof.
  apply (Hub_Close_closes_members two_queued hub0
           {| clients := [alice; bob] |} [alice_at; bob_at]).
  - reflexivity.
  - reflexivity.
  - apply NoDup_cons. split; [|apply NoDup_singleton].
    intros Hin. apply elem_of_cons in Hin as [Hin|Hin];
      [discriminate | now apply elem_of_nil in Hin].
  - intros a Ha. apply elem_of_cons in Ha as [->|Ha];
      [|apply elem_of_cons in Ha as [->|Ha]; [|now apply elem_of_nil in Ha]];
      eexists; (split; [reflexivity|]); cbn; split; reflexivity.
Defined.

Lemma without_last (c : ptr) (l : list ptr) :
  c ∉ l -> without c (l ++ [c]) = l.
Proof.
  intros Hn. unfold without. rewrite first_index_split by exact Hn.
  cbn [Nat.add]. rewrite cut_split. apply app_nil_r.
Qed.

Lemma without_split (c : ptr) (l1 l2 : list ptr) :
  c ∉ l1 -> without c (l1 ++ c :: l2) = l1 ++ l2.
Proof.
  intros Hn. unfold without. rewrite first_index_split by exact Hn.
  cbn [Nat.add]. apply cut_split.
Qed.

(** X10.  [RemoveClient] undoes [AddClient]: adding a client that was not a
    member and removing it again leaves the world exactly as it was. *)
Theorem Add_then_Remove (w : World) (ha a : addr) (hb : Hub) :
  hub_at w !! ha = Some hb ->
  Some a ∉ clients hb ->
  (AddClient (Some ha) (Some a) ;;; RemoveClient (Some ha) (Some a)) w
  = Ret tt w.
Proof.
  intros Hh Hn. unfold bind. rewrite (AddClient_appends w ha a hb Hh).
  erewrite RemoveClient_without
    by (unfold put_hub; cbn; apply lookup_insert_eq).
  cbn [clients]. rewrite without_last by exact Hn.
  rewrite put_hub_twice. now rewrite put_hub_same.
Qed.

Lemma Add_then_Remove_witness :
  (AddClient the_hub (Some 7%nat) ;;; RemoveClient the_hub (Some 7%nat))
    two_clients
  = Ret tt two_clients.
Proof.
  apply (Add_then_Remove two_clients hub0 7%nat {| clients := [alice; bob] |}).
  - reflexivity.
  - cbn. intros Hin. apply elem_of_cons in Hin as [Hin|Hin];
      [discriminate|].
    apply elem_of_cons in Hin as [Hin|Hin];
      [discriminate | now apply elem_of_nil in Hin].
Defined.

(** X11.  After [RemoveClient] of a client that was registered once, a
    broadcast launches senders for the remaining members, in their order,
    and none for the removed client. *)
Theorem Remove_then_Broadcast (w : World) (ha a : addr) (hb : Hub)
  (l1 l2 : list ptr) (m : Message) :
  hub_at w !! ha = Some hb ->
  clients hb = l1 ++ Some a :: l2 ->
  Some a ∉ l1 -> Some a ∉ l2 ->
  (RemoveClient (Some ha) (Some a) ;;; Broadcast (Some ha) m) w
  = Ret tt
      (launched (senders (l1 ++ l2) m)
         (put_hub ha {| clients := l1 ++ l2 |} w))
  /\ GoSend (Some a) m ∉ senders (l1 ++ l2) m.
Proof.
  intros Hh Hm Hn1 Hn2. split.
  - unfold bind. rewrite (RemoveClient_without w ha a hb Hh), Hm.
    rewrite without_split by exact Hn1.
    erewrite Broadcast_run by (unfold put_hub; cbn; apply lookup_insert_eq).
    reflexivity.
  - unfold senders. intros Hin.
    apply list_elem_of_fmap in Hin as (c & Heq & Hc).
    injection Heq as <-. apply elem_of_app in Hc as [Hc|Hc]; contradiction.
Qed.

Lemma Remove_then_Broadcast_witness :
  (RemoveClient the_hub alice ;;; Broadcast the_hub announcement) two_clients
  = Ret tt
      (launched [GoSend bob announcement]
         (put_hub hub0 {| clients := [bob] |} two_clients)).
Proof.
  apply (Remove_then_Broadcast two_clients hub0 alice_at
           {| clients := [alice; bob] |} [] [bob] announcement).
  - reflexivity.
  - reflexivity.
  - apply not_elem_of_nil.
  - intros Hin. apply elem_of_cons in Hin as [Hin|Hin];
      [discriminate | now apply elem_of_nil in Hin].
Defined.

(** ** What no operation undoes *)

Lemma conn_later_refl (c : option Conn) : conn_later c c.
Proof.
  destruct c as [cn|]; cbn; [|exact I].
  split; [auto|]. exists []. now rewrite app_nil_r.
Qed.

Lemma chan_later_refl (ch : Chan) : chan_later ch ch.
Proof. unfold chan_later. auto. Qed.

Lemma client_later_refl (cl : Client) : client_later cl cl.
Proof.
  unfold client_later.
  auto using conn_later_refl, chan_later_refl.
Qed.

Lemma conn_later_trans (c1 c2 c3 : option Conn) :
  conn_later c1 c2 -> conn_later c2 c3 -> conn_later c1 c3.
Proof.
  destruct c1 as [n1|], c2 as [n2|], c3 as [n3|]; cbn; try tauto.
  intros [H1 [m1 E1]] [H2 [m2 E2]]. split; [auto|].
  exists (m1 ++ m2). now rewrite E2, E1, app_assoc.
Qed.

Lemma chan_later_trans (c1 c2 c3 : Chan) :
  chan_later c1 c2 -> chan_later c2 c3 -> chan_later c1 c3.
Proof.
  unfold chan_later. intros (E1 & C1 & B1) (E2 & C2 & B2).
  split; [congruence|]. split; auto.
Qed.

Lemma client_later_trans (c1 c2 c3 : Client) :
  client_later c1 c2 -> client_later c2 c3 -> client_later c1 c3.
Proof.
  unfold client_later.
  intros (I1 & H1 & N1 & S1 & R1) (I2 & H2 & N2 & S2 & R2).
  split; [congruence|]. split; [congruence|].
  split; [eapply conn_later_trans; eassumption|].
  split; eapply chan_later_trans; eassumption.
Qed.

Lemma later_refl (w : World) : later w w.
Proof.
  split; [|split].
  - intros a cl Hc. exists cl. auto using client_later_refl.
  - intros h hb Hh. now exists hb.
  - exists []. now rewrite app_nil_r.
Qed.

Lemma later_trans (w1 w2 w3 : World) :
  later w1 w2 -> later w2 w3 -> later w1 w3.
Proof.
  intros (C1 & H1 & [m1 S1]) (C2 & H2 & [m2 S2]). split; [|split].
  - intros a cl Hc. destruct (C1 a cl Hc) as (cl2 & Hc2 & L2).
    destruct (C2 a cl2 Hc2) as (cl3 & Hc3 & L3).
    exists cl3. eauto using client_later_trans.
  - intros h hb Hh. destruct (H1 h hb Hh) as (hb2 & Hh2). eauto.
  - exists (m1 ++ m2). now rewrite S2, S1, app_assoc.
Qed.

Lemma later_put (w : World) (a : addr) (cl cl' : Client) :
  client_at w !! a = Some cl -> client_later cl cl' ->
  later w (put_client a cl' w).
Proof.
  intros Hc Hl. split; [|split].
  - intros b clb Hb. unfold put_client. cbn.
    destruct (decide (a = b)) as [->|Hne].
    + rewrite lookup_insert_eq. exists cl'. split; [reflexivity|].
      congruence.
    + rewrite lookup_insert_ne by exact Hne.
      exists clb. auto using client_later_refl.
  - intros h hb Hh. now exists hb.
  - exists []. cbn. now rewrite app_nil_r.
Qed.

Lemma later_put_new (w : World) (a : addr) (cl' : Client) :
  client_at w !! a = None -> later w (put_client a cl' w).
Proof.
  intros Hc. split; [|split].
  - intros b clb Hb. unfold put_client. cbn.
    rewrite lookup_insert_ne by congruence.
    exists clb. auto using client_later_refl.
  - intros h hb Hh. now exists hb.
  - exists []. cbn. now rewrite app_nil_r.
Qed.

Lemma later_put_hub (w : World) (a : addr) (hb' : Hub) :
  later w (put_hub a hb' w).
Proof.
  split; [|split].
  - intros b clb Hb. exists clb. auto using client_later_refl.
  - intros h hb Hh. unfold put_hub. cbn.
    destruct (decide (a = h)) as [->|Hne].
    + rewrite lookup_insert_eq. eauto.
    + rewrite lookup_insert_ne by exact Hne. eauto.
  - exists []. cbn. now rewrite app_nil_r.
Qed.

Lemma steadily_ret {A : Type} (a : A) : steadily (ret a).
Proof. intros w. apply later_refl. Qed.

Lemma steadily_park {A : Type} : steadily (@park A).
Proof. intros w. apply later_refl. Qed.

Lemma steadily_panic {A : Type} (why : string) : steadily (@panic A why).
Proof. intros w. exact I. Qed.

Lemma steadily_bind {A B : Type} (m : M A) (k : A -> M B) :
  steadily m -> (forall a, steadily (k a)) -> steadily (bind m k).
Proof.
  intros Hm Hk w. unfold bind. specialize (Hm w).
  destruct (m w) as [a w1|w1|why]; [|exact Hm|exact I].
  specialize (Hk a w1).
  destruct (k a w1) as [b w2|w2|why]; eauto using later_trans.
Qed.

Lemma steadily_load (c : ptr) : steadily (load c).
Proof.
  intros w. unfold load. destruct c as [a|]; [|exact I].
  destruct (client_at w !! a); [apply later_refl | exact I].
Qed.

Lemma steadily_load_hub (h : ptr) : steadily (load_hub h).
Proof.
  intros w. unfold load_hub. destruct h as [a|]; [|exact I].
  destruct (hub_at w !! a); [apply later_refl | exact I].
Qed.

Lemma steadily_store_hub (h : ptr) (hb : Hub) : steadily (store_hub h hb).
Proof.
  intros w. unfold store_hub. destruct h as [a|]; [|exact I].
  apply later_put_hub.
Qed.

Lemma steadily_go (g : goroutine) : steadily (go g).
Proof.
  intros w. unfold go. split; [|split].
  - intros b clb Hb. exists clb. auto using client_later_refl.
  - intros h hb Hh. now exists hb.
  - now exists [g].
Qed.

(** an update of the client just loaded, to a later state of it *)
Lemma steadily_update {A : Type} (c : ptr) (k : Client -> M A) :
  (forall w a cl,
      c = Some a -> client_at w !! a = Some cl ->
      match k cl w with
      | Ret _ w' => later w w'
      | Parked w' => later w w'
      | Panic _ => True
      end) ->
  steadily (cl <- load c ;; k cl).
Proof.
  intros Hk w. unfold bind, load. destruct c as [a|]; [|exact I].
  destruct (client_at w !! a) as [cl|] eqn:Hc; [|exact I].
  now apply (Hk w a cl).
Qed.

Lemma chan_later_enqueue (ch : Chan) (m : Message) :
  (length (buf ch) < cap ch)%nat -> chan_later ch (enqueue ch m).
Proof.
  intros Hr. unfold chan_later, enqueue, set_buf. cbn.
  split; [reflexivity|]. split; [auto|].
  intros _. rewrite length_app. cbn. lia.
Qed.

Lemma chan_later_closed (ch : Chan) :
  chan_later ch {| buf := buf ch; cap := cap ch; closed := true |}.
Proof. unfold chan_later. cbn. auto. Qed.

Lemma conn_later_write (cn : Conn) (messageType : Z) (d : list byte) :
  conn_later (Some cn) (Some (fst (conn_WriteMessage cn messageType d))).
Proof.
  unfold conn_WriteMessage.
  destruct (conn_closed cn) eqn:Ho; [|destruct (failing cn) as [|[] ?]];
    cbn; (split; [congruence || auto | eauto]).
Qed.

Lemma conn_later_Close (cn : Conn) :
  conn_later (Some cn) (Some (conn_Close cn)).
Proof. cbn. split; [auto|]. exists []. now rewrite app_nil_r. Qed.

Lemma steadily_send_on_send (c : ptr) (m : Message) :
  steadily (send_on_send c m).
Proof.
  apply steadily_update. intros w a cl -> Hc. unfold chan_send.
  destruct (closed (send cl)); [exact I|].
  destruct (length (buf (send cl)) <? cap (send cl))%nat eqn:Hr;
    [|apply later_refl].
  apply Nat.ltb_lt in Hr. cbn. apply (later_put w a cl); [exact Hc|].
  unfold client_later. cbn.
  auto 6 using conn_later_refl, chan_later_refl, chan_later_enqueue.
Qed.

Lemma steadily_send_on_receive (c : ptr) (m : Message) :
  steadily (send_on_receive c m).
Proof.
  apply steadily_update. intros w a cl -> Hc. unfold chan_send.
  destruct (closed (receive cl)); [exact I|].
  destruct (length (buf (receive cl)) <? cap (receive cl))%nat eqn:Hr;
    [|apply later_refl].
  apply Nat.ltb_lt in Hr. cbn. apply (later_put w a cl); [exact Hc|].
  unfold client_later. cbn.
  auto 6 using conn_later_refl, chan_later_refl, chan_later_enqueue.
Qed.

Lemma steadily_close_send (c : ptr) : steadily (close_send c).
Proof.
  apply steadily_update. intros w a cl -> Hc. unfold chan_close.
  destruct (closed (send cl)); [exact I|].
  cbn. apply (later_put w a cl); [exact Hc|].
  unfold client_later. cbn.
  auto 6 using conn_later_refl, chan_later_refl, chan_later_closed.
Qed.

Lemma steadily_close_receive (c : ptr) : steadily (close_receive c).
Proof.
  apply steadily_update. intros w a cl -> Hc. unfold chan_close.
  destruct (closed (receive cl)); [exact I|].
  cbn. apply (later_put w a cl); [exact Hc|].
  unfold client_later. cbn.
  auto 6 using conn_later_refl, chan_later_refl, chan_later_closed.
Qed.

Lemma steadily_WriteMessage (c : ptr) (messageType : Z) (d : list byte) :
  steadily (WriteMessage c messageType d).
Proof.
  apply steadily_update. intros w a cl -> Hc.
  destruct (conn cl) as [cn|] eqn:Hn; [|exact I].
  pose proof (conn_later_write cn messageType d) as Hw.
  destruct (conn_WriteMessage cn messageType d) as [cn' err].
  cbn. apply (later_put w a cl); [exact Hc|].
  unfold client_later. cbn. rewrite Hn.
  auto 6 using chan_later_refl.
Qed.

Lemma steadily_Client_Close (c : ptr) : steadily (Client_Close c).
Proof.
  intros w. unfold Client_Close. unfold bind at 1. unfold load.
  destruct c as [a|]; [|exact I].
  destruct (client_at w !! a) as [cl|] eqn:Hc; [|exact I].
  destruct (conn cl) as [cn|] eqn:Hn; [|apply later_refl].
  unfold bind at 1. unfold store at 1.
  assert (H1 : later w (put_client a (set_conn cl (Some (conn_Close cn))) w)).
  { apply (later_put w a cl); [exact Hc|].
    unfold client_later. cbn. rewrite Hn.
    auto 6 using chan_later_refl, conn_later_Close. }
  pose proof (steadily_bind (close_send (Some a))
                (fun _ => close_receive (Some a))
                (steadily_close_send _)
                (fun _ => steadily_close_receive _)
                (put_client a (set_conn cl (Some (conn_Close cn))) w)) as H2.
  destruct (bind _ _ _) as [u w2|w2|why]; eauto using later_trans.
Qed.

Lemma steadily_RemoveClient (h client : ptr) :
  steadily (RemoveClient h client).
Proof.
  unfold RemoveClient. destruct client as [a|]; [|apply steadily_ret].
  apply steadily_bind; [apply steadily_load_hub|]. intros hb.
  destruct (first_index (Some a) (clients hb) 0);
    [apply steadily_store_hub | apply steadily_ret].
Qed.

Lemma steadily_AddClient (h client : ptr) : steadily (AddClient h client).
Proof.
  unfold AddClient. destruct client as [a|]; [|apply steadily_ret].
  apply steadily_bind; [apply steadily_load_hub|]. intros hb.
  apply steadily_bind; [apply steadily_store_hub|]. intros _.
  apply steadily_ret.
Qed.

Lemma steadily_dispatch (targets : list ptr) (m : Message) :
  steadily (dispatch targets m).
Proof.
  induction targets as [|c r IH]; cbn [dispatch]; [apply steadily_ret|].
  apply steadily_bind; [apply steadily_go | intros _; exact IH].
Qed.

Lemma steadily_close_each (l : list ptr) : steadily (close_each l).
Proof.
  induction l as [|c r IH]; cbn [close_each]; [apply steadily_ret|].
  apply steadily_bind; [apply steadily_Client_Close | intros _; exact IH].
Qed.

Lemma steadily_Hub_Close (h : ptr) : steadily (Hub_Close h).
Proof.
  unfold Hub_Close.
  apply steadily_bind; [apply steadily_load_hub|]. intros hb.
  apply steadily_bind; [apply steadily_close_each|]. intros _.
  apply steadily_store_hub.
Qed.

Lemma steadily_Start (c : ptr) : steadily (Start c).
Proof.
  unfold Start. apply steadily_bind; [apply steadily_load|]. intros cl.
  destruct (conn cl); [|apply steadily_ret].
  apply steadily_bind; [apply steadily_go|]. intros _.
  apply steadily_bind; [apply steadily_go|]. intros _.
  apply steadily_ret.
Qed.

Lemma steadily_NewClient (id : string) (cn : option Conn) (h : ptr) :
  steadily (NewClient id cn h).
Proof. intros w. unfold NewClient. apply later_put_new, fresh_client_free. Qed.

Lemma steadily_NewHub : steadily NewHub.
Proof. intros w. unfold NewHub. apply later_put_hub. Qed.

Section Steady.

Context `{TextLayer}.

Lemma steadily_handleDataMessage (c : ptr) (messageType : Z)
  (payload : list byte) :
  steadily (handleDataMessage c messageType payload).
Proof.
  unfold handleDataMessage. destruct (json_Unmarshal payload) as [msg|].
  - apply steadily_bind; [apply steadily_load|]. intros cl.
    apply steadily_bind; [apply steadily_send_on_receive|]. intros _.
    apply steadily_ret.
  - apply steadily_bind; [apply steadily_send_on_send|]. intros _.
    apply steadily_ret.
Qed.

Lemma steadily_handleMessage (c : ptr) (messageType : Z)
  (payload : list byte) :
  steadily (handleMessage c messageType payload).
Proof.
  unfold handleMessage.
  destruct (_ || _); [apply steadily_handleDataMessage|].
  destruct (messageType =? CloseMessage)%Z; [apply steadily_ret|].
  destruct (messageType =? PingMessage)%Z; [apply steadily_WriteMessage|].
  destruct (messageType =? PongMessage)%Z; apply steadily_ret.
Qed.

Lemma steadily_readLoop (c : ptr) (incoming : list ReadEvent) :
  steadily (readLoop c incoming).
Proof.
  induction incoming as [|ev rest IH]; cbn [readLoop];
    (apply steadily_bind; [apply steadily_load|]); intros cl;
    (destruct (conn cl) as [cn|]; [|apply steadily_panic]);
    (destruct (conn_closed cn); [apply steadily_ret|]).
  - apply steadily_ret.
  - destruct ev as [messageType payload|]; [|apply steadily_ret].
    apply steadily_bind; [apply steadily_handleMessage|].
    intros [e|]; [apply steadily_ret | exact IH].
Qed.

Lemma steadily_readPump (c : ptr) (incoming : list ReadEvent) :
  steadily (readPump c incoming).
Proof.
  unfold readPump.
  apply steadily_bind; [apply steadily_readLoop|]. intros _.
  apply steadily_bind; [apply steadily_load|]. intros cl.
  apply steadily_bind; [apply steadily_RemoveClient|]. intros _.
  apply steadily_Client_Close.
Qed.

Lemma write_all_later (fs : list Frame) (cn : Conn) :
  conn_later (Some cn) (Some (write_all cn fs)).
Proof.
  revert cn. induction fs as [|f r IH]; intros cn; cbn [write_all].
  - apply conn_later_refl.
  - eapply conn_later_trans; [apply conn_later_write | apply IH].
Qed.

Lemma steadily_writePump (c : ptr) : steadily (writePump c).
Proof.
  intros w. unfold writePump. unfold bind at 1. unfold load.
  destruct c as [a|]; [|exact I].
  destruct (client_at w !! a) as [cl|] eqn:Hc; [|exact I].
  destruct (conn cl) as [cn|] eqn:Hn.
  - rewrite (writeLoop_drains a _ w cl cn Hc Hn eq_refl).
    assert (Hl : later w (put_client a (drained cl cn (buf (send cl))) w)).
    { apply (later_put w a cl); [exact Hc|].
      unfold client_later, drained. cbn. rewrite Hn.
      split; [reflexivity|]. split; [reflexivity|].
      split; [apply write_all_later|].
      split; [|apply chan_later_refl].
      unfold chan_later. cbn. split; [reflexivity|]. split; [auto|lia]. }
    now destruct (closed (send cl)).
  - destruct (buf (send cl)) as [|msg rest]; cbn [writeLoop].
    + unfold bind. rewrite (load_get w a cl Hc).
      destruct (closed (send cl)); apply later_refl.
    + unfold bind at 1. rewrite (load_get w a cl Hc).
      unfold bind at 1. unfold store at 1. unfold bind at 1.
      assert (Hp : forall w1 cl1,
                 client_at w1 !! a = Some cl1 -> conn cl1 = None ->
                 exists why, writeOne (Some a) msg w1 = Panic why).
      { intros w1 cl1 Hc1 Hn1. unfold writeOne, json_Marshal.
        destruct (Mode msg =? MessageModeBinary)%Z;
          unfold WriteMessage, bind; rewrite (load_get w1 a cl1 Hc1), Hn1;
          eexists; reflexivity. }
      destruct (Hp (put_client a (set_send cl (set_buf (send cl) rest)) w)
                  (set_send cl (set_buf (send cl) rest))
                  (get_put a _ w) Hn) as [why ->].
      exact I.
Qed.

(** X12.  Whatever a goroutine of the package does (a read pump on any
    input, a write pump, a sender), up to the point where it returns or
    waits: no client or hub is lost; no client changes its id, its hub or
    the capacity of a queue; a queue or a connection that was closed is
    still closed; a queue that was within its capacity still is; and
    nothing is taken back from the record of writes on a connection or of
    launched goroutines. *)
Theorem goroutines_only_move_on (incoming : list ReadEvent) (g : goroutine) :
  steadily (run incoming g).
Proof.
  destruct g as [c|c|c m]; cbn [run].
  - apply steadily_readPump.
  - apply steadily_writePump.
  - apply steadily_send_on_send.
Qed.

End Steady.

(** X13.  The same holds for every method of [Client] and [Hub] that
    application code calls: [NewClient], [Start], [Close], [NewHub],
    [AddClient], [RemoveClient], [Broadcast], [SendToClients], [Hub.Close]
    and [GetClients]. *)
Theorem methods_only_move_on :
  (forall id cn h, steadily (NewClient id cn h))
  /\ (forall c, steadily (Start c))
  /\ (forall c, steadily (Client_Close c))
  /\ steadily NewHub
  /\ (forall h c, steadily (AddClient h c))
  /\ (forall h c, steadily (RemoveClient h c))
  /\ (forall h m, steadily (Broadcast h m))
  /\ (forall h targets m, steadily (SendToClients h targets m))
  /\ (forall h, steadily (Hub_Close h))
  /\ (forall h, steadily (GetClients h)).
Proof.
  split; [apply steadily_NewClient|].
  split; [apply steadily_Start|].
  split; [apply steadily_Client_Close|].
  split; [apply steadily_NewHub|].
  split; [apply steadily_AddClient|].
  split; [apply steadily_RemoveClient|].
  split; [|split; [|split]].
  - intros h m. unfold Broadcast.
    apply steadily_bind; [apply steadily_load_hub|]. intros hb.
    apply steadily_dispatch.
  - intros h targets m. apply steadily_dispatch.
  - apply steadily_Hub_Close.
  - intros h. unfold GetClients.
    apply steadily_bind; [apply steadily_load_hub|]. intros hb.
    apply steadily_ret.
Qed.

(** ** message.go: what the wire cannot set *)

Lemma store_member_mode (kv : string * JSON.value) (m m' : Message) :
  store_member kv m = Some m' -> Mode m' = Mode m.
Proof.
  destruct kv as [k v]. unfold store_member.
  destruct (String.eqb (JSON.fold_name k) "type").
  { destruct (store_string v (Type_ m)); [|discriminate].
    intros [= <-]. reflexivity. }
  destruct (String.eqb (JSON.fold_name k) "payload").
  { destruct (store_bytes v); [|discriminate]. intros [= <-]. reflexivity. }
  destruct (String.eqb (JSON.fold_name k) "cid").
  { destruct (store_string v (ClientID m)); [|discriminate].
    intros [= <-]. reflexivity. }
  intros [= <-]. reflexivity.
Qed.

Lemma store_members_mode (l : list (string * JSON.value)) :
  forall m m', store_members l m = Some m' -> Mode m' = Mode m.
Proof.
  induction l as [|kv r IH]; intros m m'; cbn [store_members].
  - intros [= <-]. reflexivity.
  - destruct (store_member kv m) as [m1|] eqn:E; [|discriminate].
    intros Hr. rewrite (IH _ _ Hr). now apply (store_member_mode kv).
Qed.

(** X14.  The mode of a message is never read from the wire: whatever JSON
    value decodes into a [Message], and whatever members it has, the decoded
    message has the zero mode; so has every message a frame payload decodes
    to. *)
Theorem decoded_mode_is_zero `{TextLayer} (v : JSON.value)
  (payload : list byte) :
  (forall m, UnmarshalMessage v = Some m -> Mode m = 0%Z)
  /\ (forall m, json_Unmarshal payload = Some m -> Mode m = 0%Z).
Proof.
  assert (Hv : forall v0 m, UnmarshalMessage v0 = Some m -> Mode m = 0%Z).
  { intros v0 m. destruct v0; cbn [UnmarshalMessage]; try discriminate.
    - intros [= <-]. reflexivity.
    - intros Hs. now rewrite (store_members_mode _ _ _ Hs). }
  split; [apply Hv|].
  intros m. unfold json_Unmarshal.
  destruct (parse payload) as [v0|]; [apply Hv | discriminate].
Qed.

Lemma decoded_mode_is_zero_witness :
  exists m,
    @json_Unmarshal demo_text chat_payload = Some m /\ Mode m = 0%Z.
Proof.
  eexists. split; [vm_compute; reflexivity|].
  apply (proj2 (@decoded_mode_is_zero demo_text JSON.Null chat_payload)).
  vm_compute. reflexivity.
Defined.

(** ** internal/container and the handlers that use the hub *)

Lemma MustGet_registered (c : Container) (name : string) (service : any)
  (w : World) :
  services c !! name = Some service -> MustGet name c w = Ret service w.
Proof. intros Hs. unfold MustGet, Get. now rewrite Hs. Qed.

(** X15.  Looking up what was registered: after [Register] the name yields
    the new service, whatever was registered under it before, and every
    other name yields what it did; a name that was never registered yields
    the error [service <name> not found], and [MustGet] panics with that
    error exactly when [Get] returns it. *)
Theorem container_lookup (c : Container) (name : string) (service : any) :
  Get name (Register name service c) = (Some service, None)
  /\ (forall other, other <> name ->
        Get other (Register name service c) = Get other c)
  /\ Get name Container_New
     = (None, Some ("service " +:+ name +:+ " not found"))
  /\ (forall w,
        MustGet name c w
        = match Get name c with
          | (Some s, _) => Ret s w
          | (None, _) => Panic ("service " +:+ name +:+ " not found")
          end).
Proof.
  split; [|split; [|split]].
  - unfold Get, Register. cbn. now rewrite lookup_insert_eq.
  - intros other Hne. unfold Get, Register. cbn.
    now rewrite lookup_insert_ne by congruence.
  - reflexivity.
  - intros w. unfold MustGet, Get.
    now destruct (services c !! name).
Qed.

(** X16.  [PostMessage] rejects a request whose [Message] header is absent
    or empty with status 400 and the body [message cannot be empty], and
    launches nothing; otherwise it broadcasts one text-mode message of type
    [message] whose payload is the header value (one sender per member of
    the hub) and answers 200. *)
Theorem PostMessage_spec (c : Container) (r : Request) (ex : Exchange)
  (w : World) (ha : addr) (hb : Hub) :
  services c !! "logger" = Some AnyLogger ->
  services c !! "hub" = Some (AnyHub (Some ha)) ->
  hub_at w !! ha = Some hb ->
  let message := Header_Get r "Message" in
  let seen := log "DEBUG" "received message" [("message", message)] ex in
  PostMessage c r ex w
  = if is_empty message then
      Ret (log "INFO" "message cannot be empty" []
             (respond (http_Error "message cannot be empty" 400) seen)) w
    else
      Ret (respond (WriteHeader 200) seen)
        (launched
           (senders (clients hb)
              {| Mode := MessageModeText; Type_ := "message";
                 Payload := Some (list_byte_of_string message);
                 ClientID := "" |}) w).
Proof.
  intros Hl Hs Hh message seen. unfold PostMessage.
  unfold bind at 1. rewrite (MustGet_registered c _ _ w Hl).
  unfold bind at 1. cbn [as_logger]. unfold ret at 1.
  unfold bind at 1. rewrite (MustGet_registered c _ _ w Hs).
  unfold bind at 1. cbn [as_hub]. unfold ret at 1.
  fold message. fold seen.
  destruct (is_empty message); [reflexivity|].
  unfold bind. now rewrite (Broadcast_run w ha hb _ Hh).
Qed.

Lemma PostMessage_spec_witness :
  PostMessage (wired accepting) (request_with "hi") new_exchange two_clients
  = Ret {| response := {| status := Some 200%Z; body := "" |};
           logged := [{| level := "DEBUG"; text := "received message";
                         attrs := [("message", "hi")] |}] |}
      (launched
         (senders [alice; bob]
            {| Mode := MessageModeText; Type_ := "message";
               Payload := Some (list_byte_of_string "hi");
               ClientID := "" |}) two_clients).
Proof.
  apply (PostMessage_spec (wired accepting) (request_with "hi") new_exchange
           two_clients hub0 {| clients := [alice; bob] |});
    reflexivity.
Defined.

(** the client and the world the upgrade entry point leaves for a new
    connection [cn] *)
Lemma connect_steps (w : World) (ha : addr) (hb : Hub) (cn : Conn)
  (ex : Exchange) :
  hub_at w !! ha = Some hb ->
  let a := fresh (dom (client_at w)) in
  (client <- NewClient "" (Some cn) (Some ha) ;;
   err <- AddClient (Some ha) client ;;
   match err with
   | Some e =>
       close_conn_of client ;;;
       ret (log "ERROR" "failed to add client" [("error", e)] ex)
   | None =>
       err <- Start client ;;
       match err with
       | Some e =>
           RemoveClient (Some ha) client ;;;
           ret (log "ERROR" "failed to start client" [("error", e)] ex)
       | None => send_on_send client greeting ;;; ret ex
       end
   end) w
  = Ret ex
      {| client_at :=
           <[a := {| ID := ""; conn := Some cn;
                     send := {| buf := [greeting]; cap := 256;
                                closed := false |};
                     receive := make_chan 256; hub := Some ha |}]>
             (client_at w);
         hub_at := <[ha := {| clients := clients hb ++ [Some a] |}]> (hub_at w);
         spawned := spawned w ++ [GoReadPump (Some a); GoWritePump (Some a)] |}.
Proof.
  intros Hh a. unfold bind at 1. unfold NewClient. fold a.
  set (cl0 := {| ID := ""; conn := Some cn; send := make_chan 256;
                 receive := make_chan 256; hub := Some ha |}).
  unfold bind at 1.
  rewrite (AddClient_appends (put_client a cl0 w) ha a hb Hh).
  unfold bind at 1. unfold Start, bind at 1.
  rewrite (load_get _ a cl0) by (unfold put_hub, put_client; cbn;
                                 apply lookup_insert_eq).
  cbn [conn cl0]. unfold bind at 1, go at 1. unfold bind at 1, go at 1.
  unfold ret at 1. unfold bind at 1.
  unfold send_on_send, bind at 1.
  rewrite (load_get _ a cl0) by (unfold put_hub, put_client; cbn;
                                 apply lookup_insert_eq).
  cbn. unfold put_client. cbn. rewrite insert_insert_eq, <- app_assoc.
  reflexivity.
Qed.

(** X17.  The upgrade entry point, with logger, hub and upgrader registered:
    when the upgrade fails it logs the error and leaves clients, hubs and
    goroutines as they were; when it succeeds it never takes one of its
    error branches: a client with the empty id is built around the
    connection at a fresh address and appended to the membership, its read
    pump and write pump are launched, and its send queue holds the
    [connection] greeting and nothing else. *)
Theorem BroadcastMessage_spec (c : Container) (r : Request) (ex : Exchange)
  (w : World) (ha : addr) (hb : Hub)
  (up : ResponseWriter -> Request -> ResponseWriter * (Conn + string)) :
  services c !! "logger" = Some AnyLogger ->
  services c !! "hub" = Some (AnyHub (Some ha)) ->
  services c !! "upgrader" = Some (AnyUpgrader up) ->
  hub_at w !! ha = Some hb ->
  let a := fresh (dom (client_at w)) in
  BroadcastMessage c r ex w
  = match up (response ex) r with
    | (rw, inr err) =>
        Ret (log "ERROR" "failed to upgrade connection" [("error", err)]
               (respond (fun _ => rw) ex)) w
    | (rw, inl cn) =>
        Ret (respond (fun _ => rw) ex)
          {| client_at :=
               <[a := {| ID := ""; conn := Some cn;
                         send := {| buf := [greeting]; cap := 256;
                                    closed := false |};
                         receive := make_chan 256; hub := Some ha |}]>
                 (client_at w);
             hub_at :=
               <[ha := {| clients := clients hb ++ [Some a] |}]> (hub_at w);
             spawned :=
               spawned w ++ [GoReadPump (Some a); GoWritePump (Some a)] |}
    end.
Proof.
  intros Hl Hs Hu Hh a. unfold BroadcastMessage.
  unfold bind at 1. rewrite (MustGet_registered c _ _ w Hl).
  unfold bind at 1. cbn [as_logger]. unfold ret at 1.
  unfold bind at 1. rewrite (MustGet_registered c _ _ w Hs).
  unfold bind at 1. cbn [as_hub]. unfold ret at 1.
  unfold bind at 1. rewrite (MustGet_registered c _ _ w Hu).
  unfold bind at 1. cbn [as_upgrader]. unfold ret at 1.
  destruct (up (response ex) r) as [rw [cn|err]]; [|reflexivity].
  now apply connect_steps.
Qed.

Lemma BroadcastMessage_spec_witness :
  BroadcastMessage (wired accepting) (request_with "") new_exchange
    two_clients
  = Ret new_exchange
      {| client_at :=
           <[2%nat := {| ID := ""; conn := Some fresh_conn;
                         send := {| buf := [greeting]; cap := 256;
                                    closed := false |};
                         receive := make_chan 256; hub := the_hub |}]>
             (client_at two_clients);
         hub_at :=
           <[hub0 := {| clients := [alice; bob; Some 2%nat] |}]>
             (hub_at two_clients);
         spawned := [GoReadPump (Some 2%nat); GoWritePump (Some 2%nat)] |}.
Proof.
  apply (BroadcastMessage_spec (wired accepting) (request_with "")
           new_exchange two_clients hub0 {| clients := [alice; bob] |}
           accepting);
    reflexivity.
Defined.

Section Greeting.

Context `{TextLayer}.


End Greeting.


(** ** client.go: order and round trips through the pumps *)

Section Pipelines.

Context `{TextLayer}.

Lemma set_receive_same (cl : Client) :
  set_receive cl (set_buf (receive cl) (buf (receive cl) ++ [])) = cl.
Proof.
  rewrite app_nil_r. destruct cl as [i c s [b k o] h]. reflexivity.
Qed.

(** X19.  Data frames that decode reach the application in the order they
    arrived: the read loop appends to the receive queue (open, with room
    for all of them) one message per frame, in frame order, each with the
    client's id as clientID and the kind of its frame as mode, and goes on
    with the frames that follow. *)
Theorem inbound_in_order (frames : list (Z * list byte * Message)) :
  forall (w : World) (a : addr) (cl : Client) (cn : Conn)
         (rest : list ReadEvent),
    client_at w !! a = Some cl ->
    conn cl = Some cn -> conn_closed cn = false ->
    closed (receive cl) = false ->
    (length (buf (receive cl)) + length frames <= cap (receive cl))%nat ->
    Forall (fun '(k, p, m) => data_kind k /\ json_Unmarshal p = Some m)
      frames ->
    readLoop (Some a)
      (map (fun '(k, p, _) => ReadFrame k p) frames ++ rest) w
    = readLoop (Some a) rest
        (put_client a
           (set_receive cl
              (set_buf (receive cl)
                 (buf (receive cl)
                  ++ map (fun '(k, _, m) => stamped cl k m) frames)))
           w).
Proof.
  induction frames as [|[[k p] m] r IH];
    intros w a cl cn rest Hc Hn Ho Hr Hroom Hall.
  - cbn [map app]. rewrite set_receive_same.
    now rewrite (put_client_same a cl w Hc).
  - apply Forall_cons in Hall as [[Hk Hd] Hall]. cbn [map app length] in *.
    rewrite (readLoop_frame w a cl cn) by assumption.
    rewrite (handleMessage_data _ _ _ Hk).
    rewrite (handleDataMessage_decoded w a cl k p m) by (assumption || lia).
    set (cl1 := set_receive cl (enqueue (receive cl) (stamped cl k m))).
    rewrite (IH (put_client a cl1 w) a cl1 cn rest);
      try assumption; try apply get_put; try reflexivity.
    + rewrite put_client_twice. unfold cl1. cbn.
      now rewrite <- app_assoc.
    + unfold cl1. cbn. rewrite length_app. cbn. lia.
Qed.



End Pipelines.

Lemma inbound_in_order_witness :
  @readLoop demo_text alice
    [ReadFrame TextMessage chat_payload;
     ReadFrame BinaryMessage chat_payload] two_clients
  = @readLoop demo_text alice []
      (put_client alice_at
         (set_receive (member "alice")
            (set_buf (make_chan 256)
               [stamped (member "alice") TextMessage (withMode 0 chat_message);
                stamped (member "alice") BinaryMessage
                  (withMode 0 chat_message)]))
         two_clients).
Proof.
  apply (@inbound_in_order demo_text
           [(TextMessage, chat_payload, withMode 0 chat_message);
            (BinaryMessage, chat_payload, withMode 0 chat_message)]
           two_clients alice_at (member "alice") fresh_conn []).
  - reflexivity.
  - reflexivity.
  - reflexivity.
  - reflexivity.
  - cbn. lia.
  - apply Forall_cons. split; [split; [left|vm_compute]; reflexivity|].
    apply Forall_cons. split; [split; [right|vm_compute]; reflexivity|].
    constructor.
Defined.



(** ** hub.go: a client registered twice *)

Lemma after_Close_shut (cl : Client) (cn : Conn) :
  conn cl = Some cn -> shut (after_Close cl).
Proof.
  intros Hn. unfold after_Close, shut. rewrite Hn. cbn. eauto.
Qed.

Lemma after_Close_status (cl : Client) :
  closable cl -> closable (after_Close cl) \/ shut (after_Close cl).
Proof.
  intros Hp. destruct (conn cl) as [cn|] eqn:Hn.
  - right. now apply (after_Close_shut cl cn).
  - left. unfold after_Close. now rewrite Hn.
Qed.

Lemma closable_not_shut (cl : Client) : closable cl -> shut cl -> False.
Proof.
  unfold closable, shut. intros Hp [[cn Hn] Hs]. rewrite Hn in Hp.
  destruct Hp. congruence.
Qed.

Lemma Client_Close_shut (w : World) (a : addr) (cl : Client) :
  client_at w !! a = Some cl -> shut cl ->
  Client_Close (Some a) w = Panic "close of closed channel".
Proof.
  intros Hc [[cn Hn] Hs]. now apply (Client_Close_again w a cl cn).
Qed.

Lemma close_each_panics (l : list addr) :
  forall w,
    (forall b, b ∈ l ->
       exists cl, client_at w !! b = Some cl /\ (closable cl \/ shut cl)) ->
    (exists b cl, b ∈ l /\ client_at w !! b = Some cl /\ shut cl)
    \/ (exists b l1 l2 l3 cl cn,
          l = l1 ++ b :: l2 ++ b :: l3
          /\ client_at w !! b = Some cl /\ conn cl = Some cn) ->
    close_each (map Some l) w = Panic "close of closed channel".
Proof.
  induction l as [|x r IH]; intros w Hall Hbad.
  - destruct Hbad as [(b & cl & Hb & _)|(b & l1 & l2 & l3 & cl & cn & E & _)].
    + now apply elem_of_nil in Hb.
    + now destruct l1.
  - cbn [map close_each]. unfold bind.
    destruct (Hall x) as (clx & Hx & [Hok|Hshut]); [left| |].
    2:{ now rewrite (Client_Close_shut w x clx Hx Hshut). }
    rewrite (Client_Close_closable w x clx Hx Hok).
    set (w1 := put_client x (after_Close clx) w).
    assert (Hsame : forall b, b <> x ->
                      client_at w1 !! b = client_at w !! b).
    { intros b Hb. unfold w1, put_client. cbn.
      now rewrite lookup_insert_ne by congruence. }
    assert (Hx1 : client_at w1 !! x = Some (after_Close clx))
      by apply get_put.
    apply IH.
    + intros b Hb. destruct (decide (b = x)) as [->|Hne].
      * exists (after_Close clx). split; [exact Hx1|].
        now apply after_Close_status.
      * rewrite (Hsame b Hne). apply Hall. now right.
    + destruct Hbad
        as [(b & cl & Hb & Hcb & Hs)
          |(b & l1 & l2 & l3 & cl & cn & E & Hcb & Hn)].
      * left. exists b, cl.
        assert (Hne : b <> x).
        { intros ->. rewrite Hx in Hcb. injection Hcb as <-.
          exact (closable_not_shut _ Hok Hs). }
        apply elem_of_cons in Hb as [Hb|Hb]; [contradiction|].
        rewrite (Hsame b Hne). auto.
      * destruct l1 as [|y l1]; cbn in E; injection E as <- ->.
        -- left. exists x, (after_Close clx).
           split; [apply elem_of_app; right; left|].
           split; [exact Hx1|].
           rewrite Hx in Hcb. injection Hcb as <-.
           now apply (after_Close_shut clx cn).
        -- right. destruct (decide (b = x)) as [->|Hne].
           ++ rewrite Hx in Hcb. injection Hcb as <-.
              exists x, l1, l2, l3, (after_Close clx), (conn_Close cn).
              split; [reflexivity|]. split; [exact Hx1|].
              unfold after_Close. now rewrite Hn.
           ++ exists b, l1, l2, l3, cl, cn.
              split; [reflexivity|]. rewrite (Hsame b Hne). auto.
Qed.

(** X22.  There being no duplicate check in [AddClient], a client with a
    connection that is registered twice makes [Hub.Close] panic: the second
    entry closes queues that the first already sealed. *)
Theorem Hub_Close_panics_on_duplicate (w : World) (ha a : addr) (hb : Hub)
  (l1 l2 l3 : list addr) (cl : Client) (cn : Conn) :
  hub_at w !! ha = Some hb ->
  clients hb = map Some (l1 ++ a :: l2 ++ a :: l3) ->
  (forall b, b ∈ l1 ++ a :: l2 ++ a :: l3 ->
     exists clb, client_at w !! b = Some clb /\ closable clb) ->
  client_at w !! a = Some cl -> conn cl = Some cn ->
  Hub_Close (Some ha) w = Panic "close of closed channel".
Proof.
  intros Hh Hm Hall Hc Hn. unfold Hub_Close, bind at 1, load_hub.
  rewrite Hh, Hm. unfold bind at 1.
  rewrite (close_each_panics (l1 ++ a :: l2 ++ a :: l3) w); [reflexivity| |].
  - intros b Hb. destruct (Hall b Hb) as (clb & Hcb & Hp). eauto.
  - right. exists a, l1, l2, l3, cl, cn. auto.
Qed.

Lemma Hub_Close_panics_on_duplicate_witness :
  Hub_Close the_hub alice_twice = Panic "close of closed channel".
Proof.
  apply (Hub_Close_panics_on_duplicate alice_twice hub0 alice_at
           {| clients := [alice; bob; alice] |} [] [bob_at] []
           (member "alice") fresh_conn).
  - reflexivity.
  - reflexivity.
  - intros b Hb. cbn in Hb.
    apply elem_of_cons in Hb as [->|Hb];
      [|apply elem_of_cons in Hb as [->|Hb];
        [|apply elem_of_cons in Hb as [->|Hb];
          [|now apply elem_of_nil in Hb]]];
      eexists; (split; [reflexivity|]); cbn; split; reflexivity.
  - reflexivity.
  - reflexivity.
Defined.

(** ** middleware/chain.go *)

(** X23.  [Chain] wraps the handler in the middlewares in the order given:
    the first is applied to the handler itself and the last ends up
    outermost; chaining two lists one after the other is chaining their
    concatenation. *)
Theorem Chain_order {Handler : Type} (handler : Handler)
  (first last : Handler -> Handler)
  (middlewares more : list (Handler -> Handler)) :
  Chain handler [] = handler
  /\ Chain handler [first; last] = last (first handler)
  /\ Chain handler (first :: middlewares)
     = Chain (first handler) middlewares
  /\ Chain handler (middlewares ++ [last])
     = last (Chain handler middlewares)
  /\ Chain (Chain handler middlewares) more
     = Chain handler (middlewares ++ more).
Proof.
  unfold Chain. split; [reflexivity|]. split; [reflexivity|].
  split; [reflexivity|].
  split; [now rewrite fold_left_app | now rewrite fold_left_app].
Qed.
